(** * characterAI: the chunk-construction pipeline

    A shallow embedding of [src/data/preprocessing.py] (text cleaning and
    chapter segmentation) and [src/data/chunking.py] (the Gemini-backed
    chunker), with the properties of the specification stated on it.

    Python values are modelled as follows.
    - [str]: the list of its Unicode code points ([len] counts code points);
    - [int]: [Z];
    - an exception that leaves a function: the [Raise] case of [result];
    - the value returned by [json.loads]: the inductive [Json.value];
    - a [dict] built by the code: a record;
    - the two collaborators of [create_chunks], the generative model and
      [json.loads]: parameters of the chunker, so that what is proved of it
      holds whatever they answer. *)

From Stdlib Require Import List NArith ZArith Lia Bool String Ascii DecimalString.
Import ListNotations.

Set Implicit Arguments.
Set Warnings "-register-all".

(** ** Python strings *)

Module Py.

Definition char := N.
Definition str := list char.

(** A literal: the code points of an ASCII string. *)
Definition u (s : string) : str :=
  List.map N_of_ascii (list_ascii_of_string s).

Definition nl : char := 10%N.
Definition quote : char := 34%N.

Definition len (s : str) : Z := Z.of_nat (List.length s).

Definition ch_eqb (a b : char) : bool := N.eqb a b.

Fixpoint str_eqb (a b : str) : bool :=
  match a, b with
  | [], [] => true
  | x :: a', y :: b' => ch_eqb x y && str_eqb a' b'
  | _, _ => false
  end.

(** [str.isspace] on one character; the same table decides [\s] in [re] and
    what [str.strip] removes. *)
Definition isspace (c : char) : bool :=
  ((9 <=? c) && (c <=? 13) || (28 <=? c) && (c <=? 32)
   || (c =? 133) || (c =? 160) || (c =? 5760)
   || (8192 <=? c) && (c <=? 8202)
   || (c =? 8232) || (c =? 8233) || (c =? 8239) || (c =? 8287)
   || (c =? 12288))%N.

(** The code point of the digit zero of every decimal-digit block (category
    Nd, Unicode 14); each block is ten consecutive code points. *)
Definition decimal_zeros : list N :=
  [48; 1632; 1776; 1984; 2406; 2534; 2662; 2790; 2918; 3046; 3174; 3302;
   3430; 3558; 3664; 3792; 3872; 4160; 4240; 6112; 6160; 6470; 6608; 6784;
   6800; 6992; 7088; 7232; 7248; 42528; 43216; 43264; 43472; 43504; 43600;
   44016; 65296; 66720; 68912; 69734; 69872; 69942; 70096; 70384; 70736;
   70864; 71248; 71360; 71472; 71904; 72016; 72784; 73040; 73120; 92768;
   92864; 93008; 120782; 120792; 120802; 120812; 120822; 123200; 123632;
   125264; 130032]%N.

(** [str.isdecimal] on one character; decides [\d] in [re]. *)
Definition isdecimal (c : char) : bool :=
  existsb (fun z => (z <=? c) && (c <=? z + 9))%N decimal_zeros.

Fixpoint dropwhile (p : char -> bool) (s : str) : str :=
  match s with
  | [] => []
  | c :: s' => if p c then dropwhile p s' else s
  end.

Definition lstrip (s : str) : str := dropwhile isspace s.
Definition rstrip (s : str) : str := rev (dropwhile isspace (rev s)).

(** [s.strip()] *)
Definition strip (s : str) : str := rstrip (lstrip s).

(** [s.startswith(p)] *)
Fixpoint startswith (p s : str) : bool :=
  match p, s with
  | [], _ => true
  | _ :: _, [] => false
  | a :: p', b :: s' => ch_eqb a b && startswith p' s'
  end.

(** The lowest index at which [sub] occurs in [s]. *)
Fixpoint find_nat (sub s : str) {struct s} : option nat :=
  if startswith sub s then Some 0%nat
  else match s with
       | [] => None
       | _ :: s' => option_map S (find_nat sub s')
       end.

(** The highest index at which [sub] occurs in [s]. *)
Fixpoint rfind_nat (sub s : str) {struct s} : option nat :=
  match s with
  | [] => if startswith sub [] then Some 0%nat else None
  | _ :: s' =>
      match rfind_nat sub s' with
      | Some i => Some (S i)
      | None => if startswith sub s then Some 0%nat else None
      end
  end.

Definition index_or_minus1 (o : option nat) : Z :=
  match o with
  | Some i => Z.of_nat i
  | None => (-1)%Z
  end.

(** [s.find(sub)] and [s.rfind(sub)]: -1 when [sub] does not occur. *)
Definition find (sub s : str) : Z := index_or_minus1 (find_nat sub s).
Definition rfind (sub s : str) : Z := index_or_minus1 (rfind_nat sub s).

(** [s.find(sub, start)] for [0 <= start]. *)
Definition find_from (sub s : str) (start : nat) : Z :=
  if (List.length s <? start)%nat then (-1)%Z
  else match find_nat sub (skipn start s) with
       | Some i => Z.of_nat (start + i)
       | None => (-1)%Z
       end.

(** [sub in s] *)
Definition contains (sub s : str) : bool :=
  match find_nat sub s with
  | Some _ => true
  | None => false
  end.

(** [s.split(sep)] for a non-empty [sep]: the occurrences of [sep] are
    taken from the left and do not overlap.  [skip] counts the characters of
    an occurrence still to be passed over, [cur] is the current part,
    reversed. *)
Fixpoint split_aux (sep : str) (skip : nat) (cur : str) (s : str) : list str :=
  match s with
  | [] => [rev cur]
  | c :: s' =>
      match skip with
      | S k => split_aux sep k cur s'
      | O =>
          if startswith sep s
          then rev cur :: split_aux sep (List.length sep - 1) [] s'
          else split_aux sep 0 (c :: cur) s'
      end
  end.

Definition split (sep s : str) : list str := split_aux sep 0 [] s.

(** [s.replace(old, new)] for a non-empty [old]. *)
Fixpoint replace_aux (old new : str) (skip : nat) (s : str) : str :=
  match s with
  | [] => []
  | c :: s' =>
      match skip with
      | S k => replace_aux old new k s'
      | O =>
          if startswith old s
          then new ++ replace_aux old new (List.length old - 1) s'
          else c :: replace_aux old new 0 s'
      end
  end.

Definition replace (old new s : str) : str := replace_aux old new 0 s.

(** A slice bound of [s[a:b]]: negative bounds count from the end, and every
    bound is clamped to the string. *)
Definition slice_index (n i : Z) : Z :=
  if (i <? 0)%Z then Z.max 0 (i + n) else Z.min i n.

(** [s[a:b]] *)
Definition slice (s : str) (a b : Z) : str :=
  let lo := slice_index (len s) a in
  let hi := slice_index (len s) b in
  firstn (Z.to_nat (hi - lo)) (skipn (Z.to_nat lo) s).

(** [str(n)] for an [int]. *)
Definition str_of_int (n : Z) : str :=
  u (NilZero.string_of_int (Z.to_int n)).

(** What a call produces: a value, or an exception that leaves it. *)
Inductive exn :=
| ValueError (msg : str)
| TypeError
| AttributeError
| KeyError
| IOError
| OtherError.

Inductive result (A : Type) :=
| Return (a : A)
| Raise (e : exn).

Arguments Return {A} a.
Arguments Raise {A} e.

Definition bind {A B} (m : result A) (f : A -> result B) : result B :=
  match m with
  | Return a => f a
  | Raise e => Raise e
  end.

(** [try: body  except Exception: handler] *)
Definition try_except {A} (body : result A) (handler : exn -> result A) : result A :=
  match body with
  | Return a => Return a
  | Raise e => handler e
  end.

End Py.

Import Py.

Notation "x <- m ;; k" := (bind m (fun x => k))
  (at level 61, m at next level, right associativity).

(** ** The part of [re] the patterns of [DataPreprocessor] use

    A pattern is a sequence of items; an item is one character of a class, a
    repetition of a class (greedy or lazy), the anchor [^] under
    [re.MULTILINE], or a parenthesis of group 1.  Matching backtracks in the
    order of [re]: a greedy repetition tries the longest run first, a lazy one
    the shortest. *)

Module Re.

Inductive item :=
| One (p : char -> bool)
| Star (p : char -> bool) (greedy : bool)
| Plus (p : char -> bool) (greedy : bool)
| Bol
| GroupOpen
| GroupClose.

Definition pattern := list item.

(** Where the matcher stands: the position, the character before it, and the
    span of group 1 so far. *)
Record cursor := mkCursor {
  pos : nat;
  before : option char;
  g_start : nat;
  g_end : nat
}.

Definition advance (c : char) (st : cursor) : cursor :=
  mkCursor (S (pos st)) (Some c) (g_start st) (g_end st).

Definition at_line_start (st : cursor) : bool :=
  match before st with
  | None => true
  | Some c => ch_eqb c nl
  end.

(** A repetition of class [p] followed by the rest of the pattern [k]. *)
Fixpoint star (p : char -> bool) (greedy : bool)
    (k : cursor -> str -> option cursor) (st : cursor) (s : str)
    {struct s} : option cursor :=
  match s with
  | c :: s' =>
      if p c then
        if greedy then
          match star p greedy k (advance c st) s' with
          | Some r => Some r
          | None => k st s
          end
        else
          match k st s with
          | Some r => Some r
          | None => star p greedy k (advance c st) s'
          end
      else k st s
  | [] => k st s
  end.

(** The match of [re] that starts at the cursor, if any. *)
Fixpoint run (re : pattern) : cursor -> str -> option cursor :=
  match re with
  | [] => fun st _ => Some st
  | One p :: re' => fun st s =>
      match s with
      | c :: s' => if p c then run re' (advance c st) s' else None
      | [] => None
      end
  | Star p greedy :: re' => star p greedy (run re')
  | Plus p greedy :: re' => fun st s =>
      match s with
      | c :: s' => if p c then star p greedy (run re') (advance c st) s' else None
      | [] => None
      end
  | Bol :: re' => fun st s => if at_line_start st then run re' st s else None
  | GroupOpen :: re' => fun st s =>
      run re' (mkCursor (pos st) (before st) (pos st) (g_end st)) s
  | GroupClose :: re' => fun st s =>
      run re' (mkCursor (pos st) (before st) (g_start st) (pos st)) s
  end.

(** A match object: [m.start()], [m.end()] and the span of [m.group(1)]. *)
Record rmatch := mkMatch {
  m_start : nat;
  m_end : nat;
  m_gstart : nat;
  m_gend : nat
}.

Definition match_at (re : pattern) (p : nat) (b : option char) (s : str)
  : option rmatch :=
  match run re (mkCursor p b p p) s with
  | Some st => Some (mkMatch p (pos st) (g_start st) (g_end st))
  | None => None
  end.

(** [re.finditer]: the matches from the left, not overlapping.  [skip]
    counts the characters of the last match still to be passed over.  A match
    of length zero is reported and the scan moves on by one character; the
    patterns of [DataPreprocessor] have no such match ([match_at_advances]
    below). *)
Fixpoint finditer_aux (re : pattern) (skip : nat) (p : nat) (b : option char)
    (s : str) {struct s} : list rmatch :=
  match skip with
  | S k =>
      match s with
      | [] => []
      | c :: s' => finditer_aux re k (S p) (Some c) s'
      end
  | O =>
      match match_at re p b s with
      | Some m =>
          m :: match s with
               | [] => []
               | c :: s' => finditer_aux re (m_end m - p - 1) (S p) (Some c) s'
               end
      | None =>
          match s with
          | [] => []
          | c :: s' => finditer_aux re 0 (S p) (Some c) s'
          end
      end
  end.

Definition finditer (re : pattern) (s : str) : list rmatch :=
  finditer_aux re 0 0 None s.

(** [re.sub] with a constant replacement. *)
Fixpoint sub_aux (re : pattern) (repl : str) (skip : nat) (p : nat)
    (b : option char) (s : str) {struct s} : str :=
  match skip with
  | S k =>
      match s with
      | [] => []
      | c :: s' => sub_aux re repl k (S p) (Some c) s'
      end
  | O =>
      match match_at re p b s with
      | Some m =>
          repl ++
          match s with
          | [] => []
          | c :: s' =>
              if (m_end m =? p)%nat
              then c :: sub_aux re repl 0 (S p) (Some c) s'
              else sub_aux re repl (m_end m - p - 1) (S p) (Some c) s'
          end
      | None =>
          match s with
          | [] => []
          | c :: s' => c :: sub_aux re repl 0 (S p) (Some c) s'
          end
      end
  end.

Definition sub (re : pattern) (repl : str) (s : str) : str :=
  sub_aux re repl 0 0 None s.

(** A literal inside a pattern. *)
Definition lit (s : str) : pattern := List.map (fun c => One (ch_eqb c)) s.

Definition any (_ : char) : bool := true.
Definition not_newline (c : char) : bool := negb (ch_eqb c nl).

End Re.

(** ** [json.loads]

    The decoder of the standard library, as far as the chunker observes it: a
    JSON text becomes a Python value, anything else raises
    [json.JSONDecodeError].  A [float] keeps its source text, since no
    arithmetic is done on it. *)

Module Json.

Inductive value :=
| PyNone
| PyBool (b : bool)
| PyInt (n : Z)
| PyFloat (lexeme : str)
| PyStr (s : str)
| PyList (l : list value)
| PyDict (d : list (str * value)).

(** [k in d] and [d[k]] on the items of a [dict]. *)
Fixpoint dict_get (k : str) (d : list (str * value)) : option value :=
  match d with
  | [] => None
  | (k', v) :: d' => if str_eqb k k' then Some v else dict_get k d'
  end.

Definition dict_has (k : str) (d : list (str * value)) : bool :=
  match dict_get k d with
  | Some _ => true
  | None => false
  end.

(** [d[k] = v]: a key already present keeps its place and takes the new
    value. *)
Fixpoint dict_set (k : str) (v : value) (d : list (str * value))
  : list (str * value) :=
  match d with
  | [] => [(k, v)]
  | (k', v') :: d' =>
      if str_eqb k k' then (k, v) :: d' else (k', v') :: dict_set k v d'
  end.

Definition is_ws (c : char) : bool :=
  ((c =? 32) || (c =? 9) || (c =? 10) || (c =? 13))%N.

Definition is_digit (c : char) : bool := ((48 <=? c) && (c <=? 57))%N.

Definition skip_ws (s : str) : str := dropwhile is_ws s.

Fixpoint span (p : char -> bool) (s : str) : str * str :=
  match s with
  | [] => ([], [])
  | c :: s' =>
      if p c then let (a, b) := span p s' in (c :: a, b) else ([], s)
  end.

Definition hex_digit (c : char) : option N :=
  if ((48 <=? c) && (c <=? 57))%N then Some (c - 48)%N
  else if ((97 <=? c) && (c <=? 102))%N then Some (c - 87)%N
  else if ((65 <=? c) && (c <=? 70))%N then Some (c - 55)%N
  else None.

Definition hex4 (a b c d : char) : option N :=
  match hex_digit a, hex_digit b, hex_digit c, hex_digit d with
  | Some x, Some y, Some z, Some w => Some (((x * 16 + y) * 16 + z) * 16 + w)%N
  | _, _, _, _ => None
  end.

(** The character a one-letter escape stands for. *)
Definition unescape (c : char) : option char :=
  if (c =? 34)%N then Some 34%N
  else if (c =? 92)%N then Some 92%N
  else if (c =? 47)%N then Some 47%N
  else if (c =? 98)%N then Some 8%N
  else if (c =? 102)%N then Some 12%N
  else if (c =? 110)%N then Some 10%N
  else if (c =? 114)%N then Some 13%N
  else if (c =? 116)%N then Some 9%N
  else None.

Definition high_surrogate (n : N) : bool := ((55296 <=? n) && (n <=? 56319))%N.
Definition low_surrogate (n : N) : bool := ((56320 <=? n) && (n <=? 57343))%N.

(** The low half of a surrogate pair at the head of [s], with what follows
    it. *)
Definition low_half (s : str) : option (N * str) :=
  match s with
  | 92%N :: 117%N :: a :: b :: c :: d :: r =>
      match hex4 a b c d with
      | Some n => if low_surrogate n then Some (n, r) else None
      | None => None
      end
  | _ => None
  end.

(** The body of a string, after its opening quote, in strict mode: the
    decoded string and the text after the closing quote. *)
Fixpoint scanstring (s : str) (acc : str) {struct s} : option (str * str) :=
  match s with
  | [] => None
  | c :: r =>
      if (c =? 34)%N then Some (rev acc, r)
      else if (c =? 92)%N then
        match r with
        | [] => None
        | e :: r' =>
            if (e =? 117)%N then
              match r' with
              | a :: b :: c' :: d :: r'' =>
                  match hex4 a b c' d with
                  | None => None
                  | Some n =>
                      if high_surrogate n then
                        match r'' with
                        | 92%N :: 117%N :: a2 :: b2 :: c2 :: d2 :: r3 =>
                            match hex4 a2 b2 c2 d2 with
                            | None => None
                            | Some n2 =>
                                if low_surrogate n2
                                then scanstring r3
                                       ((65536 + ((n - 55296) * 1024 + (n2 - 56320)))%N :: acc)
                                else scanstring r'' (n :: acc)
                            end
                        | _ => scanstring r'' (n :: acc)
                        end
                      else scanstring r'' (n :: acc)
                  end
              | _ => None
              end
            else
              match unescape e with
              | Some x => scanstring r' (x :: acc)
              | None => None
              end
        end
      else if (c <? 32)%N then None
      else scanstring r (c :: acc)
  end.

Definition digits_value (ds : str) : Z :=
  fold_left (fun acc c => (acc * 10 + Z.of_N (c - 48))%Z) ds 0%Z.

(** The integer part of a number: [0], or a non-zero digit and digits. *)
Definition scan_intpart (s : str) : option (str * str) :=
  match s with
  | c :: r =>
      if (c =? 48)%N then Some ([c], r)
      else if is_digit c then let (ds, r') := span is_digit r in Some (c :: ds, r')
      else None
  | [] => None
  end.

(** An optional fraction [.digits] *)
Definition scan_frac (s : str) : str * str :=
  match s with
  | 46%N :: r =>
      match span is_digit r with
      | ([], _) => ([], s)
      | (ds, r') => (46%N :: ds, r')
      end
  | _ => ([], s)
  end.

(** An optional exponent [e], sign, digits *)
Definition scan_exp (s : str) : str * str :=
  match s with
  | e :: r =>
      if ((e =? 101) || (e =? 69))%N then
        let (sign, r1) :=
          match r with
          | g :: r0 => if ((g =? 43) || (g =? 45))%N then ([g], r0) else ([], r)
          | [] => ([], r)
          end in
        match span is_digit r1 with
        | ([], _) => ([], s)
        | (ds, r') => (e :: sign ++ ds, r')
        end
      else ([], s)
  | [] => ([], s)
  end.

Definition scan_number (s : str) : option (value * str) :=
  let (neg, s1) :=
    match s with
    | 45%N :: r => (true, r)
    | _ => (false, s)
    end in
  match scan_intpart s1 with
  | None => None
  | Some (ip, r) =>
      let (fr, r1) := scan_frac r in
      let (ex, r2) := scan_exp r1 in
      match fr, ex with
      | [], [] =>
          Some (PyInt (if neg then - digits_value ip else digits_value ip)%Z, r2)
      | _, _ =>
          Some (PyFloat ((if neg then [45%N] else []) ++ ip ++ fr ++ ex), r2)
      end
  end.

(** A constant [w] at the head of [s]. *)
Definition keyword (w : string) (v : value) (s : str) : option (value * str) :=
  if startswith (u w) s then Some (v, skipn (List.length (u w)) s) else None.

(** One value at the head of [s] and the text after it.  [fuel] bounds the
    number of values, array elements and object items read, nested ones
    included. *)
Fixpoint scan_once (fuel : nat) (s : str) {struct fuel} : option (value * str) :=
  match fuel with
  | O => None
  | S fuel' =>
      match s with
      | [] => None
      | c :: r =>
          if (c =? 34)%N then
            match scanstring r [] with
            | Some (x, r') => Some (PyStr x, r')
            | None => None
            end
          else if (c =? 123)%N then
            match skip_ws r with
            | 125%N :: r' => Some (PyDict [], r')
            | 34%N :: r' => scan_items fuel' r' []
            | _ => None
            end
          else if (c =? 91)%N then
            match skip_ws r with
            | 93%N :: r' => Some (PyList [], r')
            | r' => scan_elements fuel' r' []
            end
          else if (c =? 110)%N then keyword "null" PyNone s
          else if (c =? 116)%N then keyword "true" (PyBool true) s
          else if (c =? 102)%N then keyword "false" (PyBool false) s
          else
            match scan_number s with
            | Some x => Some x
            | None =>
                if (c =? 78)%N then keyword "NaN" (PyFloat (u "nan")) s
                else if (c =? 73)%N then keyword "Infinity" (PyFloat (u "inf")) s
                else if (c =? 45)%N then keyword "-Infinity" (PyFloat (u "-inf")) s
                else None
            end
      end
  end

(** The elements of an array from the head of an element on; [acc] holds the
    elements read, reversed. *)
with scan_elements (fuel : nat) (s : str) (acc : list value) {struct fuel}
  : option (value * str) :=
  match fuel with
  | O => None
  | S fuel' =>
      match scan_once fuel' s with
      | None => None
      | Some (v, r) =>
          match skip_ws r with
          | 93%N :: r' => Some (PyList (rev (v :: acc)), r')
          | 44%N :: r' => scan_elements fuel' (skip_ws r') (v :: acc)
          | _ => None
          end
      end
  end

(** The items of an object from just after the opening quote of a key on. *)
with scan_items (fuel : nat) (s : str) (d : list (str * value)) {struct fuel}
  : option (value * str) :=
  match fuel with
  | O => None
  | S fuel' =>
      match scanstring s [] with
      | None => None
      | Some (k, r) =>
          match skip_ws r with
          | 58%N :: r1 =>
              match scan_once fuel' (skip_ws r1) with
              | None => None
              | Some (v, r2) =>
                  match skip_ws r2 with
                  | 125%N :: r' => Some (PyDict (dict_set k v d), r')
                  | 44%N :: r3 =>
                      match skip_ws r3 with
                      | 34%N :: r4 => scan_items fuel' r4 (dict_set k v d)
                      | _ => None
                      end
                  | _ => None
                  end
              end
          | _ => None
          end
      end
  end.

(** [json.loads(s)]: [None] stands for [JSONDecodeError].  The decoder is
    run below on concrete texts only; the chunker takes its parser as a
    parameter. *)
Definition loads (s : str) : option value :=
  match s with
  | 65279%N :: _ => None
  | _ =>
      match scan_once (2 * List.length s + 2) (skip_ws s) with
      | Some (v, r) =>
          match skip_ws r with
          | [] => Some v
          | _ :: _ => None
          end
      | None => None
      end
  end.

End Json.

(** ** The dictionaries the pipeline passes around *)

(** A chapter, as [process_novel] builds it and [create_chunks] reads it. *)
Module Chapter.
Record t := mk {
  chapter_number : Z;
  title : str;
  text : str;
  length : Z
}.
End Chapter.

(** The ['metadata'] entry of a chunk. *)
Module Metadata.
Record t := mk {
  chapter_number : Z;
  chapter_title : str;
  chunk_start : Z;
  chunk_end : Z;
  chunk_index : Z;
  is_first_chunk : bool;
  is_last_chunk : bool
}.
End Metadata.

Module Chunk.
Record t := mk {
  text : str;
  summary : str;
  metadata : Metadata.t
}.
End Chunk.

(** [enumerate(l, start)] *)
Fixpoint enumerate {A : Type} (start : Z) (l : list A) : list (Z * A) :=
  match l with
  | [] => []
  | a :: l' => (start, a) :: enumerate (start + 1) l'
  end.

(** ** [src/data/preprocessing.py] *)

Module DataPreprocessor.

Import Re.

Definition colon : char := 58%N.

(** [self.clean_patterns]: [\s+], [Chapter \d+[:\s]*(.*?)\n], a class of
    three double quotes, and [^.*?Contents.*?\n] under
    [re.MULTILINE | re.DOTALL]. *)
Definition whitespace : pattern := [Plus isspace true].

Definition chapter : pattern :=
  lit (u "Chapter ") ++
  [Plus isdecimal true;
   Star (fun c => ch_eqb c colon || isspace c) true;
   GroupOpen; Star not_newline false; GroupClose;
   One (ch_eqb nl)].

Definition quotes : pattern := [One (fun c => ch_eqb c quote)].

Definition headers : pattern :=
  [Bol; Star any false] ++ lit (u "Contents") ++ [Star any false; One (ch_eqb nl)].

Definition _clean_text (text : str) : str :=
  let text := sub whitespace (u " ") text in
  let text := sub quotes [quote] text in
  strip text.

(** The body of the loop of [process_novel] for the match [m], numbered
    [i]. *)
Definition chapter_of (text : str) (i : Z) (m : rmatch) : Chapter.t :=
  let chapter_title :=
    strip (slice text (Z.of_nat (m_gstart m)) (Z.of_nat (m_gend m))) in
  let start_pos := m_end m in
  let next_match := find_from (u "Chapter") text start_pos in
  let next_match := if (next_match =? -1)%Z then len text else next_match in
  let chapter_text := strip (slice text (Z.of_nat start_pos) next_match) in
  let chapter_text := _clean_text chapter_text in
  Chapter.mk i chapter_title chapter_text (len chapter_text).

(** [process_novel]; [file] is what opening and reading [file_path] gives:
    the text of the file, or the exception raised. *)
Definition process_novel (file : result str) : result (list Chapter.t) :=
  try_except
    (text <- file ;;
     let text := sub headers [] text in
     let chapter_matches := finditer chapter text in
     Return (List.map (fun im => chapter_of text (fst im) (snd im))
               (enumerate 1 chapter_matches)))
    (fun e => Raise e).

(** *** [process_profile] *)

(** [k in v]: a key of a dict, an element of a list, a substring of a str;
    other values cannot be searched. *)
Definition py_in (k : str) (v : Json.value) : result bool :=
  match v with
  | Json.PyDict d => Return (Json.dict_has k d)
  | Json.PyList l =>
      Return (existsb (fun x => match x with
                                | Json.PyStr s => str_eqb k s
                                | _ => false
                                end) l)
  | Json.PyStr s => Return (contains k s)
  | _ => Raise TypeError
  end.

(** [v[k]] for a str [k]: only a dict can be read this way. *)
Definition subscript (v : Json.value) (k : str) : result Json.value :=
  match v with
  | Json.PyDict d =>
      match Json.dict_get k d with
      | Some x => Return x
      | None => Raise KeyError
      end
  | _ => Raise TypeError
  end.

(** [v[k] = x] for a str [k] *)
Definition store (v : Json.value) (k : str) (x : Json.value) : result Json.value :=
  match v with
  | Json.PyDict d => Return (Json.PyDict (Json.dict_set k x d))
  | _ => Raise TypeError
  end.

(** What a [for] runs over: the items of a list, the keys of a dict, the
    characters of a str. *)
Definition iter_values (v : Json.value) : result (list Json.value) :=
  match v with
  | Json.PyList l => Return l
  | Json.PyDict d => Return (List.map (fun kv => Json.PyStr (fst kv)) d)
  | Json.PyStr s => Return (List.map (fun c => Json.PyStr [c]) s)
  | _ => Raise TypeError
  end.

(** [self._clean_text(v)]: the patterns accept a str only. *)
Definition clean_value (v : Json.value) : result str :=
  match v with
  | Json.PyStr s => Return (_clean_text s)
  | _ => Raise TypeError
  end.

Definition required_fields : list str :=
  [u "name"; u "description"; u "traits"; u "relationships"].

Definition missing_field_message (field : str) : str :=
  u "Missing required field: " ++ field.

(** [for field in required_fields: if field not in profile_data: raise] *)
Fixpoint check_required (fields : list str) (profile_data : Json.value)
  : result unit :=
  match fields with
  | [] => Return tt
  | field :: rest =>
      present <- py_in field profile_data ;;
      if present then check_required rest profile_data
      else Raise (ValueError (missing_field_message field))
  end.

(** [[self._clean_text(quote) for quote in quotes]] *)
Fixpoint clean_all (quotes : list Json.value) : result (list Json.value) :=
  match quotes with
  | [] => Return []
  | quote :: rest =>
      cleaned <- clean_value quote ;;
      others <- clean_all rest ;;
      Return (Json.PyStr cleaned :: others)
  end.

Definition profile_metadata (now : str) : Json.value :=
  Json.PyDict [(u "source", Json.PyStr (u "profile"));
               (u "processed_date", Json.PyStr now)].

(** [process_profile]; [file] is what opening the file and [json.load] give,
    [now] is [datetime.now().isoformat()]. *)
Definition process_profile (file : result Json.value) (now : str)
  : result Json.value :=
  try_except
    (profile_data <- file ;;
     _ <- check_required required_fields profile_data ;;
     description <- subscript profile_data (u "description") ;;
     cleaned <- clean_value description ;;
     profile_data <- store profile_data (u "description") (Json.PyStr cleaned) ;;
     has_quotes <- py_in (u "quotes") profile_data ;;
     profile_data <-
       (if has_quotes : bool then
          quotes <- subscript profile_data (u "quotes") ;;
          quotes <- iter_values quotes ;;
          quotes <- clean_all quotes ;;
          store profile_data (u "quotes") (Json.PyList quotes)
        else Return profile_data) ;;
     profile_data <- store profile_data (u "metadata") (profile_metadata now) ;;
     _ <- subscript profile_data (u "name") ;;
     Return profile_data)
    (fun e => Raise e).

(** *** [process_wiki] *)

(** An element of [content.find_all(['h2', 'p'])]: its [name] and what
    [get_text()] gives. *)
Module Tag.
Inductive kind := h2 | p.
Record t := mk { name : kind; get_text : str }.
End Tag.

(** What the page gives once parsed: the elements found under
    [mw-content-text], the text of [firstHeading] and the text of
    [footer-info-lastmod]; [None] where [soup.find] finds nothing. *)
Module Soup.
Record t := mk {
  content : option (list Tag.t);
  first_heading : option str;
  last_modified : option str
}.
End Soup.

(** [sections]: the section titles, in the order they were first set, each
    with its paragraphs. *)
Definition sections_t := list (str * list str).

Fixpoint sections_get (k : str) (d : sections_t) : option (list str) :=
  match d with
  | [] => None
  | (k', v) :: d' => if str_eqb k k' then Some v else sections_get k d'
  end.

(** [sections[k] = v] *)
Fixpoint sections_set (k : str) (v : list str) (d : sections_t) : sections_t :=
  match d with
  | [] => [(k, v)]
  | (k', v') :: d' =>
      if str_eqb k k' then (k, v) :: d' else (k', v') :: sections_set k v d'
  end.

(** [sections[k].append(x)] *)
Fixpoint sections_append (k : str) (x : str) (d : sections_t) : result sections_t :=
  match d with
  | [] => Raise KeyError
  | (k', v) :: d' =>
      if str_eqb k k' then Return ((k', v ++ [x]) :: d')
      else d'' <- sections_append k x d' ;; Return ((k', v) :: d'')
  end.

(** The loop of [process_wiki] over the elements, from the sections and the
    current section reached so far. *)
Fixpoint collect_sections (elements : list Tag.t) (sections : sections_t)
    (current_section : option str) : result sections_t :=
  match elements with
  | [] => Return sections
  | element :: rest =>
      match Tag.name element with
      | Tag.h2 =>
          let current_section := strip (Tag.get_text element) in
          collect_sections rest (sections_set current_section [] sections)
            (Some current_section)
      | Tag.p =>
          match current_section with
          | Some (c :: cs) =>
              let text := _clean_text (Tag.get_text element) in
              match text with
              | [] => collect_sections rest sections current_section
              | _ :: _ =>
                  sections <- sections_append (c :: cs) text sections ;;
                  collect_sections rest sections current_section
              end
          | _ => collect_sections rest sections current_section
          end
      end
  end.

Module WikiData.
Record t := mk {
  title : str;
  url : str;
  sections : sections_t;
  last_modified : str;
  source : str
}.
End WikiData.

Definition attribute (o : option str) : result str :=
  match o with
  | Some s => Return s
  | None => Raise AttributeError
  end.

(** [process_wiki]; [page] is what fetching [url] and parsing the answer
    give. *)
Definition process_wiki (page : result Soup.t) (url : str) : result WikiData.t :=
  try_except
    (soup <- page ;;
     elements <-
       match Soup.content soup with
       | Some l => Return l
       | None => Raise AttributeError
       end ;;
     sections <- collect_sections elements [] None ;;
     title <- attribute (Soup.first_heading soup) ;;
     last_modified <- attribute (Soup.last_modified soup) ;;
     Return (WikiData.mk title url sections last_modified (u "wiki")))
    (fun e => Raise e).

End DataPreprocessor.

(** ** [src/data/chunking.py] *)

Module DocumentChunker.

Import Json.

(** A literal with double quotes inside: written with apostrophes, which the
    texts below do not contain. *)
Definition uq (s : string) : str :=
  List.map (fun c => if ch_eqb c 39%N then quote else c) (u s).

Definition lines (l : list str) : str :=
  List.concat (List.map (fun x => x ++ [nl]) l).

Definition no_key_message : str :=
  u "No API key provided. Set GOOGLE_API_KEY environment variable".

(** [__init__]: [api_key] is the argument, [environ] the value of the
    environment variable [GOOGLE_API_KEY], [generative_model] what
    constructing the model gives.  The chunker keeps the model. *)
Definition init {M : Type} (api_key : option str) (environ : option str)
    (generative_model : result M) : result M :=
  api_key <-
    match api_key with
    | None =>
        match environ with
        | None => Raise (ValueError no_key_message)
        | Some [] => Raise (ValueError no_key_message)
        | Some k => Return k
        end
    | Some k => Return k
    end ;;
  try_except generative_model (fun e => Raise e).

(** The f-string of [create_chunks]. *)
Definition prompt_of (chapter : Chapter.t) : str :=
  [nl] ++
  lines
    [ u "        Analyze the following chapter and divide it into logical chunks. Return ONLY a JSON array ";
      u "        with no additional text or markdown formatting. Each chunk object should have exactly two fields:";
      uq "        'text' and 'summary'.";
      [];
      u "        Guidelines for chunks:";
      u "        - Each chunk should be a coherent scene or section";
      u "        - Maintain narrative flow";
      u "        - Not exceed 2000 characters";
      u "        - Not break mid-dialogue or mid-action";
      [];
      u "        Chapter " ++ str_of_int (Chapter.chapter_number chapter)
        ++ u ": " ++ Chapter.title chapter;
      [];
      u "        Text:";
      u "        " ++ Chapter.text chapter;
      [];
      u "        Respond with ONLY a JSON array in this exact format:";
      u "        [";
      uq "            {'text': 'chunk text here', 'summary': 'brief summary here'},";
      uq "            {'text': 'next chunk text', 'summary': 'next summary'}";
      u "        ]" ]
  ++ u "        ".

Definition fence : str := u "```".
Definition lbracket : str := u "[".
Definition rbracket : str := u "]".
Definition json_tag : str := u "json" ++ [nl].

(** [for part in parts: if '[' in part and ']' in part: json_str =
    part.strip(); break] *)
Fixpoint first_bracketed (parts : list str) (json_str : str) : str :=
  match parts with
  | [] => json_str
  | part :: rest =>
      if contains lbracket part && contains rbracket part
      then strip part
      else first_bracketed rest json_str
  end.

(** From [response.text] to the string handed to [json.loads]. *)
Definition extract_json (response_text : str) : str :=
  let json_str := strip response_text in
  let json_str :=
    if contains fence json_str
    then first_bracketed (split fence json_str) json_str
    else json_str in
  let json_str := replace json_tag [] json_str in
  slice json_str (find lbracket json_str) (rfind rbracket json_str + 1).

(** What [enumerate(chunks_data)] runs over: the items of a list, the keys of
    a dict, the characters of a str; anything else is not iterable. *)
Definition iterate (v : value) : result (list value) :=
  match v with
  | PyList l => Return l
  | PyDict d => Return (List.map (fun kv => PyStr (fst kv)) d)
  | PyStr s => Return (List.map (fun c => PyStr [c]) s)
  | _ => Raise TypeError
  end.

(** [d[k]] *)
Definition getitem (k : str) (d : list (str * value)) : result value :=
  match dict_get k d with
  | Some v => Return v
  | None => Raise KeyError
  end.

(** [v.strip()]: only a [str] has the method. *)
Definition strip_method (v : value) : result str :=
  match v with
  | PyStr s => Return (strip s)
  | _ => Raise AttributeError
  end.

Definition text_key : str := u "text".
Definition summary_key : str := u "summary".

(** The test that lets an element through: a dict with both keys. *)
Definition well_formed (chunk_data : value) : bool :=
  match chunk_data with
  | PyDict d => dict_has text_key d && dict_has summary_key d
  | _ => false
  end.

Definition items_of (chunk_data : value) : list (str * value) :=
  match chunk_data with
  | PyDict d => d
  | _ => []
  end.

(** The loop over [enumerate(chunks_data)], from the running offset
    [start_pos]; [n] is [len(chunks_data)].  The result is what the loop
    appends to [chunks]. *)
Fixpoint format_chunks (chapter : Chapter.t) (n : Z)
    (data : list (Z * value)) (start_pos : Z) : result (list Chunk.t) :=
  match data with
  | [] => Return []
  | (i, chunk_data) :: rest =>
      if negb (well_formed chunk_data)
      then format_chunks chapter n rest start_pos
      else
        text_value <- getitem text_key (items_of chunk_data) ;;
        chunk_text <- strip_method text_value ;;
        let end_pos := (start_pos + len chunk_text)%Z in
        summary_value <- getitem summary_key (items_of chunk_data) ;;
        summary <- strip_method summary_value ;;
        let chunk :=
          Chunk.mk chunk_text summary
            (Metadata.mk (Chapter.chapter_number chapter) (Chapter.title chapter)
               start_pos end_pos i (i =? 0)%Z (i =? n - 1)%Z) in
        chunks <- format_chunks chapter n rest end_pos ;;
        Return (chunk :: chunks)
  end.

Section WithCollaborators.

(** [generate_content prompt] is [response.text] for the response of
    [self.model.generate_content(prompt)], or the exception either raises;
    [json_loads] is [json.loads], [None] standing for [JSONDecodeError]. *)
Variable generate_content : str -> result str.
Variable json_loads : str -> option value.

Definition create_chunks (chapter : Chapter.t) : result (list Chunk.t) :=
  let prompt := prompt_of chapter in
  try_except
    (response_text <- generate_content prompt ;;
     match response_text with
     | [] => Raise (ValueError (u "Empty response from API"))
     | _ :: _ =>
         let json_str := extract_json response_text in
         match json_loads json_str with
         | None => Return []
         | Some chunks_data =>
             data <- iterate chunks_data ;;
             chunks <- format_chunks chapter (Z.of_nat (List.length data))
                         (enumerate 0 data) 0 ;;
             match chunks with
             | [] => Raise (ValueError (u "No valid chunks were created"))
             | _ :: _ => Return chunks
             end
         end
     end)
    (fun e => Return []).

(** The loop of [chunk_chapters]: [all_chunks.extend(chunks)] for every
    chapter. *)
Fixpoint chunk_loop (chapters : list Chapter.t) (all_chunks : list Chunk.t)
  : result (list Chunk.t) :=
  match chapters with
  | [] => Return all_chunks
  | chapter :: rest =>
      chunks <- create_chunks chapter ;;
      chunk_loop rest (all_chunks ++ chunks)
  end.

Definition chunk_chapters (chapters : list Chapter.t) : result (list Chunk.t) :=
  chunk_loop chapters [].

End WithCollaborators.

End DocumentChunker.

(** ** What the specification says of chunks, as predicates *)

Module ChunkSpec.

Import Json DocumentChunker.

(** A record as the specification wants it: an object whose [text] and
    [summary] are strings. *)
Definition valid_record (v : value) : bool :=
  match v with
  | PyDict d =>
      match dict_get text_key d, dict_get summary_key d with
      | Some (PyStr _), Some (PyStr _) => true
      | _, _ => false
      end
  | _ => false
  end.

(** The offsets of [chunks] run on from [o] without gap or overlap: every
    chunk starts where the one before it ended (the first one at [o]) and
    ends its own length further. *)
Fixpoint contiguous_from (o : Z) (chunks : list Chunk.t) : Prop :=
  match chunks with
  | [] => True
  | c :: rest =>
      Metadata.chunk_start (Chunk.metadata c) = o /\
      Metadata.chunk_end (Chunk.metadata c) = (o + len (Chunk.text c))%Z /\
      contiguous_from (Metadata.chunk_end (Chunk.metadata c)) rest
  end.

(** The chunk [create_chunks] builds from the valid record [v] found at
    position [i] of [n] records, at offset [o]. *)
Definition chunk_of (chapter : Chapter.t) (n i o : Z) (v : value) : option Chunk.t :=
  match v with
  | PyDict d =>
      match dict_get text_key d, dict_get summary_key d with
      | Some (PyStr t), Some (PyStr s) =>
          Some (Chunk.mk (strip t) (strip s)
                  (Metadata.mk (Chapter.chapter_number chapter)
                     (Chapter.title chapter) o (o + len (strip t))%Z i
                     (i =? 0)%Z (i =? n - 1)%Z))
      | _, _ => None
      end
  | _ => None
  end.

(** The stages at which a chapter can fail in [create_chunks]. *)
Inductive fails (generate_content : str -> result str)
    (json_loads : str -> option value) (chapter : Chapter.t) : Prop :=
| oracle_raises e :
    generate_content (prompt_of chapter) = Raise e ->
    fails generate_content json_loads chapter
| empty_response :
    generate_content (prompt_of chapter) = Return [] ->
    fails generate_content json_loads chapter
| parse_fails response :
    generate_content (prompt_of chapter) = Return response ->
    json_loads (extract_json response) = None ->
    fails generate_content json_loads chapter
| not_iterable response v e :
    generate_content (prompt_of chapter) = Return response ->
    json_loads (extract_json response) = Some v ->
    iterate v = Raise e ->
    fails generate_content json_loads chapter
| record_raises response v data e :
    generate_content (prompt_of chapter) = Return response ->
    json_loads (extract_json response) = Some v ->
    iterate v = Return data ->
    format_chunks chapter (Z.of_nat (List.length data)) (enumerate 0 data) 0
      = Raise e ->
    fails generate_content json_loads chapter
| no_valid_chunk response v data :
    generate_content (prompt_of chapter) = Return response ->
    json_loads (extract_json response) = Some v ->
    iterate v = Return data ->
    format_chunks chapter (Z.of_nat (List.length data)) (enumerate 0 data) 0
      = Return [] ->
    fails generate_content json_loads chapter.

End ChunkSpec.

(** ** Concrete inputs used to exercise the statements below *)

Module Samples.

Import Json DocumentChunker.

Definition chapter1 : Chapter.t :=
  Chapter.mk 1 (u "The Boy Who Lived") (u "Mr and Mrs Dursley were proud.") 30.

Definition chapter2 : Chapter.t :=
  Chapter.mk 2 (u "The Vanishing Glass") (u "Nearly ten years had passed.") 28.

(** An oracle that answers every prompt with [response]. *)
Definition answers (response : str) : str -> result str :=
  fun _ => Return response.

(** An oracle that answers the prompt of chapter 1 with [r1] and every other
    prompt with [r2]. *)
Definition answers_by_chapter (r1 r2 : result str) : str -> result str :=
  fun prompt => if str_eqb prompt (prompt_of chapter1) then r1 else r2.

Definition record (text summary : string) : value :=
  PyDict [(text_key, PyStr (u text)); (summary_key, PyStr (u summary))].



(** A record without [summary] between two valid ones. *)
Definition middle_invalid_text : str :=
  uq "[{'text':'A','summary':'B'}, {'text':'C'}, {'text':'D','summary':'E'}]".

(** A valid record followed by one without [summary]. *)
Definition trailing_invalid : list value :=
  [record "A" "B"; PyDict [(text_key, PyStr (u "C"))]].

Definition trailing_invalid_text : str :=
  uq "[{'text':'A','summary':'B'}, {'text':'C'}]".

(** A record whose [text] is a number, followed by a valid one. *)
Definition number_as_text : list value :=
  [PyDict [(text_key, PyInt 1); (summary_key, PyStr (u "s"))]; record "a" "b"].

Definition number_as_text_text : str :=
  uq "[{'text': 1, 'summary': 's'}, {'text': 'a', 'summary': 'b'}]".

(** What [create_chunks] makes of [middle_invalid_text] for chapter 1. *)
Definition middle_invalid_chunks : list Chunk.t :=
  [Chunk.mk (u "A") (u "B")
     (Metadata.mk 1 (Chapter.title chapter1) 0 1 0 true false);
   Chunk.mk (u "D") (u "E")
     (Metadata.mk 1 (Chapter.title chapter1) 1 2 2 false true)].


Definition one_record_text : str := uq "[{'text':'A','summary':'B'}]".

(** The same array inside a fenced block with a language tag. *)
Definition fenced_text : str :=
  fence ++ json_tag ++ one_record_text ++ [nl] ++ fence.



Definition apology_text : str := u "Sorry, I cannot process this.".


(** A novel whose titles carry the numerals 7 and 3. *)
Definition odd_numerals : str :=
  lines [u "Chapter 7: Seven"; u "Text of seven.";
         u "Chapter 3: Three"; u "Text of three."].

End Samples.

(** ** Functions the proofs reason with *)

Module Aux.

(** The length of the longest prefix of [s] whose characters satisfy [p]. *)
Fixpoint runlen (p : char -> bool) (s : str) : nat :=
  match s with
  | c :: s' => if p c then S (runlen p s') else 0%nat
  | [] => 0%nat
  end.

(** The least number of characters a match of [re] takes. *)
Fixpoint min_len (re : Re.pattern) : nat :=
  match re with
  | [] => 0%nat
  | Re.One _ :: re' => S (min_len re')
  | Re.Plus _ _ :: re' => S (min_len re')
  | _ :: re' => min_len re'
  end.

(** What replacing every run of whitespace by one space comes to; [in_run]
    tells that the characters just before were whitespace, already
    replaced. *)
Fixpoint collapse (in_run : bool) (s : str) : str :=
  match s with
  | [] => []
  | c :: s' =>
      if isspace c
      then if in_run then collapse true s' else 32%N :: collapse true s'
      else c :: collapse false s'
  end.

(** [c] is none of the characters of [s]. *)
Definition lacks (c : char) (s : str) : bool :=
  forallb (fun x => negb (ch_eqb x c)) s.

(** [sep] starts at no position of [x] when [x] is followed by [tail]. *)
Fixpoint nowhere (sep x tail : str) : Prop :=
  match x with
  | [] => True
  | c :: x' => startswith sep (x ++ tail) = false /\ nowhere sep x' tail
  end.

(** A text that opens with a left bracket and closes with a right one. *)
Definition bracketed (s : str) : bool :=
  match s with
  | c :: r =>
      ch_eqb c 91%N &&
      match rev r with
      | d :: _ => ch_eqb d 93%N
      | [] => false
      end
  | [] => false
  end.

Definition lbracket_char : char := 91%N.
Definition rbracket_char : char := 93%N.

End Aux.

(** ** Further notions the statements use *)

From Stdlib Require Import Sorted.

Module MoreSpec.

Import Json DocumentChunker.

(** The sum of the lengths of the texts of [chunks]. *)
Fixpoint total_len (chunks : list Chunk.t) : Z :=
  match chunks with
  | [] => 0%Z
  | c :: rest => (len (Chunk.text c) + total_len rest)%Z
  end.

(** The trimmed [text] and [summary] of a valid record. *)
Definition stripped_fields (v : value) : str * str :=
  match v with
  | PyDict d =>
      match dict_get text_key d, dict_get summary_key d with
      | Some (PyStr t), Some (PyStr s) => (strip t, strip s)
      | _, _ => ([], [])
      end
  | _ => ([], [])
  end.

Definition fields_of (c : Chunk.t) : str * str := (Chunk.text c, Chunk.summary c).

(** Every whitespace character of [s] is a plain space that has a character
    other than whitespace right after it. *)
Fixpoint single_spaced (s : str) : bool :=
  match s with
  | [] => true
  | c :: s' =>
      (if isspace c
       then ch_eqb c 32%N &&
            match s' with
            | d :: _ => negb (isspace d)
            | [] => false
            end
       else true)
      && single_spaced s'
  end.

(** A text with no whitespace at either end and, inside, only single plain
    spaces. *)
Definition tidy (s : str) : bool :=
  match s with
  | c :: _ => negb (isspace c)
  | [] => true
  end && single_spaced s.

Definition visible (c : char) : bool := negb (isspace c).

(** The cleaned paragraphs at the head of [elements], up to the next
    heading; a paragraph that cleans to nothing is left out. *)
Fixpoint paragraphs_until_heading (elements : list DataPreprocessor.Tag.t)
  : list str :=
  match elements with
  | [] => []
  | e :: rest =>
      match DataPreprocessor.Tag.name e with
      | DataPreprocessor.Tag.h2 => []
      | DataPreprocessor.Tag.p =>
          match DataPreprocessor._clean_text (DataPreprocessor.Tag.get_text e) with
          | [] => paragraphs_until_heading rest
          | t => t :: paragraphs_until_heading rest
          end
      end
  end.

(** The paragraphs that follow the last heading whose trimmed text is [k],
    up to the next heading; nothing follows a heading whose text is empty. *)
Fixpoint section_of (k : str) (elements : list DataPreprocessor.Tag.t)
  : option (list str) :=
  match elements with
  | [] => None
  | e :: rest =>
      match section_of k rest with
      | Some b => Some b
      | None =>
          match DataPreprocessor.Tag.name e with
          | DataPreprocessor.Tag.h2 =>
              if str_eqb k (strip (DataPreprocessor.Tag.get_text e))
              then Some (match k with
                         | [] => []
                         | _ :: _ => paragraphs_until_heading rest
                         end)
              else None
          | DataPreprocessor.Tag.p => None
          end
      end
  end.

(** A chapter as it is laid out in a novel: the numeral of the heading, what
    separates it from the title, the title, and the text up to the next
    heading. *)
Module Piece.
Record t := mk {
  digits : str;
  sep : str;
  title : str;
  body : str
}.
End Piece.

(** The class [[:\s]] of the chapter pattern. *)
Definition sep_class (c : char) : bool :=
  ch_eqb c DataPreprocessor.colon || isspace c.

(** The heading line of a piece. *)
Definition heading (p : Piece.t) : str :=
  u "Chapter " ++ Piece.digits p ++ Piece.sep p ++ Piece.title p ++ [nl].

(** The pieces one after the other. *)
Fixpoint layout (ps : list Piece.t) : str :=
  match ps with
  | [] => []
  | p :: rest => heading p ++ Piece.body p ++ layout rest
  end.

(** A piece whose heading the chapter pattern reads as intended: a numeral of
    decimal digits, colons and whitespace after it, then a title on one line
    that starts with none of these, and a body without the word Chapter. *)
Definition well_laid (p : Piece.t) : bool :=
  match Piece.digits p with
  | [] => false
  | _ :: _ => forallb isdecimal (Piece.digits p)
  end
  && forallb sep_class (Piece.sep p)
  && match Piece.title p with
     | c :: _ => negb (sep_class c) && negb (isdecimal c)
     | [] => false
     end
  && forallb Re.not_newline (Piece.title p)
  && negb (contains (u "Chapter") (Piece.body p)).

(** The chapters [process_novel] is to return for the pieces, numbered from
    [i]. *)
Fixpoint chapters_of (i : Z) (ps : list Piece.t) : list Chapter.t :=
  match ps with
  | [] => []
  | p :: rest =>
      let text := DataPreprocessor._clean_text (strip (Piece.body p)) in
      Chapter.mk i (strip (Piece.title p)) text (len text)
      :: chapters_of (i + 1) rest
  end.

End MoreSpec.

(** ** More concrete inputs *)

Module MoreSamples.

Import Json DataPreprocessor.

Definition today : str := u "2024-05-17T10:30:00".

Definition profile : list (str * value) :=
  [(u "name", PyStr (u "Harry Potter"));
   (u "description", PyStr (u "  The boy   who lived. "));
   (u "age", PyInt 11);
   (u "traits", PyList [PyStr (u "brave")]);
   (u "relationships", PyDict [(u "Ron", PyStr (u "friend"))]);
   (u "quotes", PyList [PyStr (u " I solemnly  swear. "); PyStr (u "Mischief managed")])].

(** What [process_profile] makes of [profile] at the date [today]. *)
Definition profile_out : list (str * value) :=
  [(u "name", PyStr (u "Harry Potter"));
   (u "description", PyStr (u "The boy who lived."));
   (u "age", PyInt 11);
   (u "traits", PyList [PyStr (u "brave")]);
   (u "relationships", PyDict [(u "Ron", PyStr (u "friend"))]);
   (u "quotes", PyList [PyStr (u "I solemnly swear."); PyStr (u "Mischief managed")]);
   (u "metadata", PyDict [(u "source", PyStr (u "profile"));
                          (u "processed_date", PyStr today)])].

(** A profile without [traits] and without [relationships]. *)
Definition profile_without_traits : list (str * value) :=
  [(u "name", PyStr (u "Harry Potter"));
   (u "description", PyStr (u "The boy who lived."))].

Definition page_url : str := u "https://example.org/wiki/Harry".

(** A page with a paragraph before the first heading, a paragraph of blanks,
    and a heading that comes twice. *)
Definition page : Soup.t :=
  Soup.mk
    (Some [Tag.mk Tag.p (u "Lead paragraph.");
           Tag.mk Tag.h2 (u " History ");
           Tag.mk Tag.p (u " First   paragraph. ");
           Tag.mk Tag.p (u "   ");
           Tag.mk Tag.h2 (u "Plot");
           Tag.mk Tag.p (u "A plot.");
           Tag.mk Tag.h2 (u "History");
           Tag.mk Tag.p (u "Second history.")])
    (Some (u "Harry Potter"))
    (Some (u "Last edited today")).

(** What [process_wiki] makes of [page]. *)
Definition page_data : WikiData.t :=
  WikiData.mk (u "Harry Potter") page_url
    [(u "History", [u "Second history."]); (u "Plot", [u "A plot."])]
    (u "Last edited today") (u "wiki").

(** An array between prose, with no fence. *)
Definition unfenced_before : str := u "Here are the chunks: ".
Definition unfenced_after : str := u " I hope this helps.".

(** A novel of two chapters after a title page. *)
Definition title_page : str := u "A Tale" ++ [nl; nl].

Definition pieces : list MoreSpec.Piece.t :=
  [MoreSpec.Piece.mk (u "1") (u ": ") (u "The Start ")
     (u "It was   a dark night." ++ [nl; nl]);
   MoreSpec.Piece.mk (u "12") (u " ") (u "Onwards")
     (u "  They left." ++ [nl])].

End MoreSamples.

(** * Properties *)

(** ** Matching *)

Module ReFacts.

Import Re DataPreprocessor Aux.

Lemma star_advances p greedy k d :
  (forall st s st', k st s = Some st' -> (pos st + d <= pos st')%nat) ->
  forall s st st',
    star p greedy k st s = Some st' -> (pos st + d <= pos st')%nat.
Proof.
  intros K. induction s as [|c s IH]; intros st st' H; simpl in H; [eauto|].
  destruct (p c); [|eauto]. destruct greedy.
  - destruct (star p true k (advance c st) s) eqn:E.
    + injection H as <-. apply IH in E. simpl in E. lia.
    + eauto.
  - destruct (k st (c :: s)) eqn:E.
    + injection H as <-. eauto.
    + apply IH in H. simpl in H. lia.
Qed.

(** A match takes at least one character for every item that has to take
    one. *)
Lemma run_advances re :
  forall st s st', run re st s = Some st' -> (pos st + min_len re <= pos st')%nat.
Proof.
  induction re as [|i re IH]; intros st s st' H.
  - injection H as <-. simpl. lia.
  - destruct i as [p|p g|p g| | | ]; cbn [run min_len] in *.
    + destruct s as [|c s]; [discriminate|].
      destruct (p c); [|discriminate]. apply IH in H. simpl in H. lia.
    + eapply star_advances; eauto.
    + destruct s as [|c s]; [discriminate|].
      destruct (p c); [|discriminate].
      apply (star_advances p g (run re) (min_len re) IH) in H.
      simpl in H. lia.
    + destruct (at_line_start st); [eauto|discriminate].
    + apply IH in H. simpl in H. lia.
    + apply IH in H. simpl in H. lia.
Qed.

Lemma match_at_advances re p b s m :
  match_at re p b s = Some m -> (p + min_len re <= m_end m)%nat.
Proof.
  unfold match_at. destruct (run re (mkCursor p b p p) s) eqn:E; [|discriminate].
  intros [= <-]. apply run_advances in E. exact E.
Qed.

(** No pattern of [DataPreprocessor] matches the empty string. *)
Lemma patterns_take_characters :
  min_len whitespace = 1%nat /\ min_len chapter = 10%nat /\
  min_len quotes = 1%nat /\ min_len headers = 9%nat.
Proof. repeat split. Qed.

End ReFacts.

(** ** Text cleaning *)

Module CleanFacts.

Import Re DataPreprocessor Aux.

Lemma ch_eqb_eq a b : ch_eqb a b = true <-> a = b.
Proof. apply N.eqb_eq. Qed.

Lemma ch_eqb_refl a : ch_eqb a a = true.
Proof. apply N.eqb_refl. Qed.

(** A greedy repetition at the end of a pattern takes the whole run. *)
Lemma star_greedy_end p s :
  forall st, exists st',
    star p true (fun st0 _ => Some st0) st s = Some st' /\
    pos st' = (pos st + runlen p s)%nat.
Proof.
  induction s as [|c s IH]; intros st; simpl.
  - exists st. split; [reflexivity|lia].
  - destruct (p c).
    + destruct (IH (advance c st)) as (st' & -> & Hp).
      exists st'. split; [reflexivity|]. rewrite Hp. simpl. lia.
    + exists st. split; [reflexivity|lia].
Qed.

(** [\s+] at a position: no match on a character that is not whitespace, the
    whole run otherwise. *)
Lemma match_whitespace p b c s :
  match_at whitespace p b (c :: s) =
  if isspace c
  then Some (mkMatch p (S p + runlen isspace s) p p)
  else None.
Proof.
  unfold match_at, whitespace. cbn [run].
  destruct (isspace c); [|reflexivity].
  destruct (star_greedy_end isspace s (advance c (mkCursor p b p p)))
    as (st' & E & Hp).
  change (run []) with (fun (st0 : cursor) (_ : str) => Some st0).
  rewrite E. f_equal.
  assert (forall st, star isspace true (fun st0 _ => Some st0) st s = Some st' ->
            g_start st' = g_start st /\ g_end st' = g_end st) as G.
  { clear. revert st'. induction s as [|c s IH]; simpl; intros st' st H.
    - injection H as <-. auto.
    - destruct (isspace c).
      + destruct (star isspace true _ (advance c st) s) eqn:E.
        * injection H as <-. apply (IH _ _ E).
        * injection H as <-. auto.
      + injection H as <-. auto. }
  destruct (G _ E) as [Gs Ge]. destruct st'; simpl in *. subst. reflexivity.
Qed.

(** [sub] of the whitespace pattern is [collapse]. *)
Lemma sub_whitespace_aux s :
  (forall p b, sub_aux whitespace (u " ") 0 p b s = collapse false s) /\
  (forall p b, sub_aux whitespace (u " ") (runlen isspace s) p b s = collapse true s).
Proof.
  induction s as [|c s [IH0 IH1]].
  - split; reflexivity.
  - assert (forall p b, sub_aux whitespace (u " ") 0 p b (c :: s)
                        = collapse false (c :: s)) as H0.
    { intros p b. cbn [sub_aux]. rewrite match_whitespace. simpl collapse.
      destruct (isspace c).
      - cbn [m_end]. replace (S p + runlen isspace s =? p)%nat with false
          by (symmetry; apply Nat.eqb_neq; lia).
        replace (S p + runlen isspace s - p - 1)%nat with (runlen isspace s) by lia.
        rewrite IH1. reflexivity.
      - now rewrite IH0. }
    split; [exact H0|].
    intros p b. simpl runlen. destruct (isspace c) eqn:W.
    + cbn [sub_aux]. rewrite IH1. simpl. now rewrite W.
    + rewrite H0. simpl. now rewrite W.
Qed.

Lemma sub_whitespace s : sub whitespace (u " ") s = collapse false s.
Proof. apply sub_whitespace_aux. Qed.

(** Replacing a double quote by a double quote changes nothing. *)
Lemma sub_quotes_aux s : forall p b, sub_aux quotes [quote] 0 p b s = s.
Proof.
  induction s as [|c s IH]; intros p b; [reflexivity|].
  cbn [sub_aux]. unfold match_at, quotes. cbn [run].
  destruct (ch_eqb c quote) eqn:Q.
  - apply ch_eqb_eq in Q. subst c. cbn [pos advance m_end].
    replace (S p =? p)%nat with false by (symmetry; apply Nat.eqb_neq; lia).
    replace (S p - p - 1)%nat with 0%nat by lia.
    rewrite IH. reflexivity.
  - now rewrite IH.
Qed.

Lemma sub_quotes s : sub quotes [quote] s = s.
Proof. apply sub_quotes_aux. Qed.

Lemma dropwhile_length p s : (List.length (dropwhile p s) <= List.length s)%nat.
Proof.
  induction s as [|c s IH]; simpl; [lia|]. destruct (p c); simpl; lia.
Qed.

Lemma dropwhile_idem p s : dropwhile p (dropwhile p s) = dropwhile p s.
Proof.
  induction s as [|c s IH]; simpl; [reflexivity|].
  destruct (p c) eqn:E; [exact IH|]. simpl. now rewrite E.
Qed.

(** What [dropwhile] keeps is a suffix. *)
Lemma dropwhile_suffix p s : exists t, s = t ++ dropwhile p s /\ forallb p t = true.
Proof.
  induction s as [|c s (t & E & F)]; simpl.
  - now exists [].
  - destruct (p c) eqn:Pc.
    + exists (c :: t). simpl. rewrite Pc, F. split; [now f_equal|reflexivity].
    + now exists [].
Qed.

Lemma rstrip_length s : (List.length (rstrip s) <= List.length s)%nat.
Proof.
  unfold rstrip. rewrite length_rev.
  etransitivity; [apply dropwhile_length|]. now rewrite length_rev.
Qed.

Lemma rstrip_idem s : rstrip (rstrip s) = rstrip s.
Proof. unfold rstrip. now rewrite rev_involutive, dropwhile_idem. Qed.

(** What [rstrip] keeps is a prefix. *)
Lemma rstrip_prefix s : exists t, s = rstrip s ++ t /\ forallb isspace t = true.
Proof.
  unfold rstrip. destruct (dropwhile_suffix isspace (rev s)) as (t & E & F).
  exists (rev t). split.
  - rewrite <- rev_app_distr, <- E. now rewrite rev_involutive.
  - rewrite forallb_forall in *. intros x Hx. apply F. now apply in_rev.
Qed.

Lemma strip_length s : (List.length (strip s) <= List.length s)%nat.
Proof.
  unfold strip, lstrip. etransitivity; [apply rstrip_length|apply dropwhile_length].
Qed.

Lemma collapse_length s : forall b, (List.length (collapse b s) <= List.length s)%nat.
Proof.
  induction s as [|c s IH]; intros b; simpl; [lia|].
  pose proof (IH true). pose proof (IH false).
  destruct (isspace c); [destruct b|]; simpl; lia.
Qed.

Lemma collapse_idem s : forall b, collapse b (collapse b s) = collapse b s.
Proof.
  induction s as [|c s IH]; intros b; simpl; [reflexivity|].
  destruct (isspace c) eqn:W.
  - destruct b; [apply IH|]. simpl. now rewrite IH.
  - simpl. rewrite W. now rewrite IH.
Qed.

(** Stripping a collapsed text on the left gives the text collapsed as if it
    came after whitespace. *)
Lemma lstrip_collapse s : forall b, lstrip (collapse b s) = collapse true s.
Proof.
  unfold lstrip.
  induction s as [|c s IH]; intros b; simpl; [reflexivity|].
  destruct (isspace c) eqn:W.
  - destruct b; [apply IH|]. simpl. apply IH.
  - simpl. now rewrite W.
Qed.

(** A prefix of a text that [collapse] leaves alone is left alone too. *)
Lemma collapse_fixed_prefix y1 y2 :
  forall b, collapse b (y1 ++ y2) = y1 ++ y2 -> collapse b y1 = y1.
Proof.
  induction y1 as [|c y1 IH]; intros b H; [reflexivity|].
  simpl in *. destruct (isspace c) eqn:W.
  - destruct b.
    + exfalso. pose proof (collapse_length (y1 ++ y2) true) as L.
      rewrite H in L. simpl in L. lia.
    + injection H as Hc H. f_equal; [exact Hc|]. now apply IH.
  - injection H as H. f_equal. now apply IH.
Qed.

(** [_clean_text] in terms of [collapse]. *)
Lemma clean_text_eq text : _clean_text text = rstrip (collapse true text).
Proof.
  unfold _clean_text. rewrite sub_whitespace, sub_quotes.
  unfold strip. now rewrite lstrip_collapse.
Qed.

(** C7: [_clean_text] is idempotent, and its result is never longer than its
    argument. *)
Theorem clean_text_idempotent_and_not_longer text :
  _clean_text (_clean_text text) = _clean_text text /\
  (len (_clean_text text) <= len text)%Z.
Proof.
  split.
  - rewrite !clean_text_eq.
    destruct (rstrip_prefix (collapse true text)) as (t & E & _).
    assert (collapse true (rstrip (collapse true text))
            = rstrip (collapse true text)) as ->.
    { apply collapse_fixed_prefix with (y2 := t). rewrite <- E.
      apply collapse_idem. }
    apply rstrip_idem.
  - rewrite clean_text_eq. unfold len. apply inj_le.
    etransitivity; [apply rstrip_length|apply collapse_length].
Qed.

End CleanFacts.

(** ** String operations *)

Module StringFacts.

Import Aux CleanFacts.


Lemma lacks_In c s : lacks c s = true <-> ~ In c s.
Proof.
  unfold lacks. rewrite forallb_forall. split.
  - intros H Hin. specialize (H c Hin). now rewrite ch_eqb_refl in H.
  - intros H x Hx. destruct (ch_eqb x c) eqn:E; [|reflexivity].
    apply ch_eqb_eq in E. subst. contradiction.
Qed.

Lemma lacks_incl c s t : (forall x, In x t -> In x s) -> lacks c s = true -> lacks c t = true.
Proof. rewrite !lacks_In. intros H N Hin. auto. Qed.

Lemma dropwhile_In p s x : In x (dropwhile p s) -> In x s.
Proof.
  induction s as [|c s IH]; simpl; [auto|].
  destruct (p c); simpl; intuition.
Qed.

Lemma rstrip_In s x : In x (rstrip s) -> In x s.
Proof.
  unfold rstrip. intros H. apply in_rev in H. apply dropwhile_In in H.
  now apply in_rev.
Qed.

Lemma strip_In s x : In x (strip s) -> In x s.
Proof. unfold strip, lstrip. intros H. now apply rstrip_In, dropwhile_In in H. Qed.

Lemma lacks_lstrip c s : lacks c s = true -> lacks c (lstrip s) = true.
Proof. apply lacks_incl. intros x. apply dropwhile_In. Qed.

Lemma lacks_rstrip c s : lacks c s = true -> lacks c (rstrip s) = true.
Proof. apply lacks_incl. intros x. apply rstrip_In. Qed.

Lemma lacks_strip c s : lacks c s = true -> lacks c (strip s) = true.
Proof. apply lacks_incl. intros x. apply strip_In. Qed.

(** *** [startswith] *)

Lemma startswith_app p t : startswith p (p ++ t) = true.
Proof. induction p as [|a p IH]; simpl; [reflexivity|]. now rewrite ch_eqb_refl. Qed.

Lemma startswith_length p s : startswith p s = true -> (List.length p <= List.length s)%nat.
Proof.
  revert s. induction p as [|a p IH]; intros [|c s]; simpl; try lia; try discriminate.
  intros H. apply andb_true_iff in H as [_ H]. apply IH in H. lia.
Qed.

(** An occurrence that starts in [s] lies in [s], or covers [s] to its
    end. *)
Lemma startswith_app_inv sep s t :
  startswith sep (s ++ t) = true ->
  startswith sep s = true \/ Forall (fun c => In c sep) s.
Proof.
  revert s. induction sep as [|a sep IH]; intros s H.
  - left. destruct s; reflexivity.
  - destruct s as [|c s]; [right; constructor|].
    simpl in H. apply andb_true_iff in H as [E H]. apply ch_eqb_eq in E. subst c.
    destruct (IH s H) as [L|R].
    + left. simpl. now rewrite ch_eqb_refl.
    + right. constructor; [now left|].
      eapply Forall_impl; [|exact R]. intros x Hx. now right.
Qed.

(** A character foreign to [sep] stops every occurrence before it. *)
Lemma startswith_stop sep s c t :
  lacks c sep = true -> startswith sep (s ++ c :: t) = startswith sep s.
Proof.
  intros L. revert s. induction sep as [|a sep IH]; intros s.
  - destruct s; reflexivity.
  - simpl in L. apply andb_true_iff in L as [La L].
    destruct s as [|x s]; simpl.
    + unfold ch_eqb in *. destruct (N.eqb a c); [discriminate|reflexivity].
    + now rewrite IH.
Qed.

(** *** [find], [rfind], [in] *)

Lemma find_nat_lacks c s : lacks c s = true -> find_nat [c] s = None.
Proof.
  induction s as [|x s IH]; simpl; [reflexivity|].
  intros H. apply andb_true_iff in H as [Hx H].
  unfold ch_eqb in *. rewrite N.eqb_sym.
  destruct (N.eqb x c); [discriminate|]. now rewrite IH.
Qed.

Lemma rfind_nat_lacks c s : lacks c s = true -> rfind_nat [c] s = None.
Proof.
  induction s as [|x s IH]; simpl; [reflexivity|].
  intros H. apply andb_true_iff in H as [Hx H]. rewrite IH by assumption.
  unfold ch_eqb in *. rewrite N.eqb_sym.
  destruct (N.eqb x c); [discriminate|reflexivity].
Qed.

Lemma find_nat_first c x y :
  lacks c x = true -> find_nat [c] (x ++ c :: y) = Some (List.length x).
Proof.
  induction x as [|a x IH]; simpl.
  - now rewrite ch_eqb_refl.
  - intros H. apply andb_true_iff in H as [Ha H].
    unfold ch_eqb in *. rewrite N.eqb_sym.
    destruct (N.eqb a c); [discriminate|]. now rewrite IH.
Qed.

Lemma rfind_nat_last c x y :
  lacks c y = true -> rfind_nat [c] (x ++ c :: y) = Some (List.length x).
Proof.
  intros H. induction x as [|a x IH]; simpl.
  - rewrite rfind_nat_lacks by assumption. now rewrite ch_eqb_refl.
  - now rewrite IH.
Qed.

Lemma contains_char c s : contains [c] s = negb (lacks c s).
Proof.
  unfold contains. induction s as [|x s IH]; simpl; [reflexivity|].
  unfold ch_eqb. rewrite N.eqb_sym.
  destruct (N.eqb x c); simpl; [reflexivity|].
  rewrite <- IH. now destruct (find_nat [c] s).
Qed.

Lemma find_nat_here sep s : startswith sep s = true -> find_nat sep s = Some 0%nat.
Proof. destruct s; simpl; intros ->; reflexivity. Qed.

Lemma contains_middle sep x y : contains sep (x ++ sep ++ y) = true.
Proof.
  unfold contains. induction x as [|a x IH].
  - cbn [app]. now rewrite find_nat_here by apply startswith_app.
  - cbn [app find_nat].
    destruct (startswith sep (a :: x ++ sep ++ y)); [reflexivity|].
    destruct (find_nat sep (x ++ sep ++ y)); [reflexivity|discriminate].
Qed.

(** *** [nowhere] *)



Lemma contains_false_nowhere sep x : contains sep x = false -> nowhere sep x [].
Proof.
  unfold contains. induction x as [|c x IH]; simpl; [auto|].
  rewrite app_nil_r.
  destruct (startswith sep (c :: x)) eqn:E; [discriminate|].
  destruct (find_nat sep x); [discriminate|]. auto.
Qed.

(** A text without occurrence that ends with a character foreign to [sep]
    has no occurrence whatever follows it. *)
Lemma nowhere_extend sep y d t :
  lacks d sep = true -> nowhere sep (y ++ [d]) [] -> nowhere sep (y ++ [d]) t.
Proof.
  intros L. induction y as [|c y IH]; simpl; rewrite ?app_nil_r.
  - intros [H _]. split; [|exact I].
    destruct (startswith sep (d :: t)) eqn:E; [|reflexivity].
    destruct (startswith_app_inv sep [d] t E) as [S|F]; [congruence|].
    inversion F; subst. apply lacks_In in L. contradiction.
  - intros [H Hy]. split; [|auto].
    destruct (startswith sep (c :: (y ++ [d]) ++ t)) eqn:E; [|reflexivity].
    destruct (startswith_app_inv sep (c :: y ++ [d]) t E) as [S|F]; [congruence|].
    apply Forall_forall with (x := d) in F; [|right; apply in_or_app; right; now left].
    apply lacks_In in L. contradiction.
Qed.

(** *** [split] *)




Lemma split_aux_lacks c sep s :
  lacks c s = true ->
  forall skip cur, lacks c cur = true ->
    Forall (fun part => lacks c part = true) (split_aux sep skip cur s).
Proof.
  induction s as [|x s IH]; intros L skip cur Lc; simpl.
  - constructor; [|constructor]. eapply lacks_incl; [|exact Lc].
    intros y. apply in_rev.
  - simpl in L. apply andb_true_iff in L as [Lx L].
    destruct skip; [|auto].
    destruct (startswith sep (x :: s)).
    + constructor; [|auto].
      eapply lacks_incl; [|exact Lc]. intros y. apply in_rev.
    + apply IH; auto. simpl. now rewrite Lx.
Qed.

(** *** [replace] *)

Lemma replace_aux_In old s x :
  forall skip, In x (replace_aux old [] skip s) -> In x s.
Proof.
  induction s as [|c s IH]; intros skip; simpl; [auto|].
  destruct skip; [|eauto].
  destruct (startswith old (c :: s)); simpl; [eauto|].
  intros [H|H]; eauto.
Qed.

Lemma lacks_replace c old s : lacks c s = true -> lacks c (replace old [] s) = true.
Proof. apply lacks_incl. intros x. apply replace_aux_In. Qed.

(** Replacement before a character foreign to [old] does not reach over
    it. *)
Lemma replace_aux_stop old c rest t :
  lacks c old = true ->
  forall skip, (skip <= List.length t)%nat ->
    replace_aux old [] skip (t ++ c :: rest)
    = replace_aux old [] skip t ++ replace_aux old [] 0 (c :: rest).
Proof.
  intros L. induction t as [|x t IH]; intros skip Hs.
  - simpl in Hs. replace skip with 0%nat by lia. reflexivity.
  - cbn [app replace_aux]. destruct skip as [|k].
    + change (x :: t ++ c :: rest) with ((x :: t) ++ c :: rest).
      rewrite startswith_stop by assumption.
      destruct (startswith old (x :: t)) eqn:E.
      * apply startswith_length in E. simpl in E.
        cbn [app]. apply IH. lia.
      * cbn [app]. f_equal. apply IH. lia.
    + apply IH. simpl in Hs. lia.
Qed.

(** Replacement leaves a text without occurrence as it is. *)
Lemma replace_aux_nowhere old new x t :
  nowhere old x t ->
  replace_aux old new 0 (x ++ t) = x ++ replace_aux old new 0 t.
Proof.
  induction x as [|c x IH]; intros N; [reflexivity|].
  destruct N as [H N]. cbn [app replace_aux].
  change (c :: x ++ t) with ((c :: x) ++ t). rewrite H.
  cbn [app]. f_equal. auto.
Qed.

End StringFacts.

(** ** From the response to the string that is parsed *)

Module ExtractFacts.

Import Aux CleanFacts StringFacts DocumentChunker.

Lemma dropwhile_stop p x c r :
  p c = false -> dropwhile p (x ++ c :: r) = dropwhile p x ++ c :: r.
Proof.
  intros H. induction x as [|a x IH]; simpl; [now rewrite H|].
  destruct (p a); [exact IH|reflexivity].
Qed.

Lemma rstrip_stop l c q :
  isspace c = false -> rstrip (l ++ c :: q) = l ++ c :: rstrip q.
Proof.
  intros H. unfold rstrip.
  rewrite rev_app_distr. cbn [rev]. rewrite <- app_assoc. cbn [app].
  rewrite dropwhile_stop by assumption.
  rewrite rev_app_distr. cbn [rev]. rewrite rev_involutive, <- app_assoc.
  reflexivity.
Qed.

(** [strip] works on the two ends only. *)
Lemma strip_around p c1 m c2 q :
  isspace c1 = false -> isspace c2 = false ->
  strip (p ++ c1 :: m ++ c2 :: q) = lstrip p ++ c1 :: m ++ c2 :: rstrip q.
Proof.
  intros H1 H2. unfold strip, lstrip.
  rewrite dropwhile_stop by assumption.
  change (dropwhile isspace p ++ c1 :: m ++ c2 :: q)
    with (dropwhile isspace p ++ (c1 :: m) ++ c2 :: q).
  rewrite app_assoc, rstrip_stop by assumption.
  now rewrite <- app_assoc.
Qed.

Lemma slice_middle x m y :
  slice (x ++ m ++ y) (Z.of_nat (List.length x))
    (Z.of_nat (List.length x + List.length m)) = m.
Proof.
  unfold slice, slice_index, len. rewrite !length_app.
  destruct (Z.ltb_spec (Z.of_nat (List.length x)) 0); [lia|].
  destruct (Z.ltb_spec (Z.of_nat (List.length x + List.length m)) 0); [lia|].
  rewrite !Z.min_l by lia. rewrite Nat2Z.id.
  replace (Z.to_nat (Z.of_nat (List.length x + List.length m) - Z.of_nat (List.length x)))
    with (List.length m) by lia.
  rewrite skipn_app, skipn_all, Nat.sub_diag. cbn [app skipn].
  rewrite firstn_app, firstn_all, Nat.sub_diag. cbn [firstn]. apply app_nil_r.
Qed.

Lemma bracketed_inv s :
  bracketed s = true -> exists mid, s = lbracket_char :: mid ++ [rbracket_char].
Proof.
  destruct s as [|c r]; simpl; [discriminate|].
  intros H. apply andb_true_iff in H as [Hc H]. apply ch_eqb_eq in Hc. subst c.
  destruct (rev r) as [|d t] eqn:E; [discriminate|].
  apply ch_eqb_eq in H. subst d. exists (rev t).
  rewrite <- (rev_involutive r), E. reflexivity.
Qed.

(** The last step of [extract_json]: from the first left bracket to the last
    right bracket. *)
Lemma bracket_slice x mid y :
  lacks lbracket_char x = true -> lacks rbracket_char y = true ->
  let s := x ++ (lbracket_char :: mid ++ [rbracket_char]) ++ y in
  slice s (find lbracket s) (rfind rbracket s + 1)
  = lbracket_char :: mid ++ [rbracket_char].
Proof.
  intros Lx Ly s. unfold find, rfind, lbracket, rbracket.
  change (u "[") with [lbracket_char]. change (u "]") with [rbracket_char].
  assert (find_nat [lbracket_char] s = Some (List.length x)) as ->.
  { unfold s. cbn [app]. now apply find_nat_first. }
  assert (rfind_nat [rbracket_char] s
          = Some (List.length x + List.length (lbracket_char :: mid))%nat) as ->.
  { unfold s. cbn [app]. rewrite <- app_assoc. cbn [app].
    change (x ++ lbracket_char :: mid ++ rbracket_char :: y)
      with (x ++ (lbracket_char :: mid) ++ rbracket_char :: y).
    rewrite app_assoc, <- length_app. now apply rfind_nat_last. }
  cbn [index_or_minus1].
  replace (Z.of_nat (List.length x + List.length (lbracket_char :: mid)) + 1)%Z
    with (Z.of_nat (List.length x
                    + List.length (lbracket_char :: mid ++ [rbracket_char]))).
  - apply slice_middle.
  - cbn [List.length]. rewrite length_app. cbn [List.length]. lia.
Qed.

(** A response without brackets leaves nothing to parse. *)
Lemma extract_json_no_brackets response :
  lacks lbracket_char response = true ->
  lacks rbracket_char response = true ->
  extract_json response = [].
Proof.
  intros Ll Lr. unfold extract_json.
  set (s0 := strip response).
  assert (lacks lbracket_char s0 = true) as L0 by now apply lacks_strip.
  assert (lacks rbracket_char s0 = true) as R0 by now apply lacks_strip.
  set (s1 := if contains fence s0 then first_bracketed (split fence s0) s0 else s0).
  assert (s1 = s0) as ->.
  { unfold s1. destruct (contains fence s0); [|reflexivity].
    assert (Forall (fun part => lacks lbracket_char part = true) (split fence s0)) as F
      by (apply split_aux_lacks; auto).
    induction F as [|part parts Hp F IH]; [reflexivity|].
    cbn [first_bracketed]. unfold lbracket at 1.
    change (u "[") with [lbracket_char]. rewrite contains_char, Hp. exact IH. }
  set (s2 := replace json_tag [] s0).
  assert (lacks lbracket_char s2 = true) as L2 by now apply lacks_replace.
  assert (lacks rbracket_char s2 = true) as R2 by now apply lacks_replace.
  unfold find, rfind, lbracket, rbracket.
  change (u "[") with [lbracket_char]. change (u "]") with [rbracket_char].
  rewrite find_nat_lacks, rfind_nat_lacks by assumption.
  cbn [index_or_minus1]. unfold slice, slice_index, len.
  change (-1 + 1)%Z with 0%Z. cbn [Z.ltb Z.compare].
  replace (Z.to_nat _) with 0%nat; [reflexivity|]. lia.
Qed.





End ExtractFacts.

(** ** Chapter segmentation *)

Module SegmentFacts.

Import Re DataPreprocessor.




(** The numbering does not read the numeral of the title. *)
Example process_novel_ignores_numerals :
  process_novel (Return Samples.odd_numerals) =
  Return [Chapter.mk 1 (u "Seven") (u "Text of seven.") 14;
          Chapter.mk 2 (u "Three") (u "Text of three.") 14].
Proof. vm_compute. reflexivity. Qed.


End SegmentFacts.

(** ** The chunker *)

Module ChunkerFacts.

Import Json DocumentChunker ChunkSpec.

Ltac bind_inv H :=
  repeat match type of H with
  | bind ?m _ = Return _ =>
      let E := fresh "E" in
      destruct m eqn:E; cbn [bind] in H; [ | discriminate H ]
  end.

Lemma valid_record_inv v :
  valid_record v = true ->
  exists d t s, v = PyDict d /\ dict_get text_key d = Some (PyStr t)
                /\ dict_get summary_key d = Some (PyStr s).
Proof.
  destruct v as [ | | | | | |d]; simpl; try discriminate.
  destruct (dict_get text_key d) as [[ | | | |t| | ]|] eqn:Et; try discriminate.
  destruct (dict_get summary_key d) as [[ | | | |s| | ]|] eqn:Es; try discriminate.
  intros _. now exists d, t, s.
Qed.

Lemma valid_record_well_formed v : valid_record v = true -> well_formed v = true.
Proof.
  intros H. destruct (valid_record_inv v H) as (d & t & s & -> & Ht & Hs).
  simpl. unfold dict_has. now rewrite Ht, Hs.
Qed.

(** One turn of the loop on a record that passes the test and whose fields
    are strings. *)
Lemma format_chunks_step chapter n i v rest start c :
  chunk_of chapter n i start v = Some c ->
  format_chunks chapter n ((i, v) :: rest) start =
  bind (format_chunks chapter n rest (Metadata.chunk_end (Chunk.metadata c)))
       (fun chunks => Return (c :: chunks)).
Proof.
  destruct v as [ | | | | | |d]; simpl; try discriminate.
  unfold dict_has, getitem.
  destruct (dict_get text_key d) as [[ | | | |t| | ]|] eqn:Et; try discriminate.
  destruct (dict_get summary_key d) as [[ | | | |s| | ]|] eqn:Es; try discriminate.
  intros [= <-]. reflexivity.
Qed.

(** One turn of the loop on a record that does not pass the test. *)
Lemma format_chunks_skip chapter n i v rest start :
  well_formed v = false ->
  format_chunks chapter n ((i, v) :: rest) start = format_chunks chapter n rest start.
Proof. intros H. simpl. now rewrite H. Qed.

(** A turn of the loop that appends a chunk did so from a valid record. *)
Lemma format_chunks_inv chapter n i v rest start chunks :
  format_chunks chapter n ((i, v) :: rest) start = Return chunks ->
  (well_formed v = false /\ format_chunks chapter n rest start = Return chunks) \/
  (exists c tl, chunk_of chapter n i start v = Some c /\ chunks = c :: tl /\
     format_chunks chapter n rest (Metadata.chunk_end (Chunk.metadata c)) = Return tl).
Proof.
  simpl. destruct (well_formed v) eqn:W; cbn [negb]; intros H.
  - right. destruct v as [ | | | | | |d]; try discriminate W.
    cbn [items_of] in H. unfold getitem in H.
    destruct (dict_get text_key d) as [tv|] eqn:Et; cbn [bind] in H; [|discriminate].
    destruct tv; cbn [strip_method bind] in H; try discriminate.
    destruct (dict_get summary_key d) as [sv|] eqn:Es; cbn [bind] in H; [|discriminate].
    destruct sv; cbn [strip_method bind] in H; try discriminate.
    bind_inv H. injection H as <-.
    eexists _, a. simpl. rewrite Et, Es. repeat split. exact E.
  - left. split; auto.
Qed.


Lemma valid_chunk_of chapter n i o v :
  valid_record v = true -> exists c, chunk_of chapter n i o v = Some c.
Proof.
  intros H. destruct (valid_record_inv v H) as (d & t & s & -> & Ht & Hs).
  simpl. rewrite Ht, Hs. eauto.
Qed.

Lemma chunk_of_metadata chapter n i o v c :
  chunk_of chapter n i o v = Some c ->
  Metadata.chunk_start (Chunk.metadata c) = o /\
  Metadata.chunk_end (Chunk.metadata c) = (o + len (Chunk.text c))%Z /\
  Metadata.chunk_index (Chunk.metadata c) = i /\
  Metadata.is_first_chunk (Chunk.metadata c) = (i =? 0)%Z /\
  Metadata.is_last_chunk (Chunk.metadata c) = (i =? n - 1)%Z.
Proof.
  destruct v as [ | | | | | |d]; simpl; try discriminate.
  destruct (dict_get text_key d) as [[ | | | |t| | ]|]; try discriminate.
  destruct (dict_get summary_key d) as [[ | | | |s| | ]|]; try discriminate.
  intros [= <-]. simpl. auto.
Qed.

(** The running offset: whatever the loop appends is contiguous from the
    offset it started at. *)
Lemma format_chunks_contiguous chapter n data :
  forall start chunks,
    format_chunks chapter n data start = Return chunks ->
    contiguous_from start chunks.
Proof.
  induction data as [|[i v] rest IH]; intros start chunks H.
  - injection H as <-. exact I.
  - apply format_chunks_inv in H as [[_ H]|(c & tl & Hc & -> & H)].
    + eauto.
    + destruct (chunk_of_metadata _ _ _ _ _ Hc) as (Hs & He & _).
      simpl. repeat split; auto.
Qed.



Lemma enumerate_snd {A} (l : list A) k : List.map snd (enumerate k l) = l.
Proof. revert k. induction l; simpl; intros; [reflexivity | now rewrite IHl]. Qed.


(** When no element passes the test the loop appends nothing. *)
Lemma format_chunks_none_well_formed chapter n data :
  Forall (fun v => well_formed v = false) (List.map snd data) ->
  forall start, format_chunks chapter n data start = Return [].
Proof.
  induction data as [|[i v] rest IH]; intros H start; [reflexivity|].
  inversion H; subst. rewrite format_chunks_skip; auto.
Qed.

Section WithCollaborators.

Variable generate_content : str -> result str.
Variable json_loads : str -> option value.

Local Abbreviation create_chunks := (create_chunks generate_content json_loads).
Local Abbreviation chunk_chapters := (chunk_chapters generate_content json_loads).
Local Abbreviation chunk_loop := (chunk_loop generate_content json_loads).
Local Abbreviation fails := (fails generate_content json_loads).

(** [create_chunks] returns the empty list, or what the loop appended, which
    is then not empty. *)
Lemma create_chunks_cases chapter :
  (fails chapter /\ create_chunks chapter = Return []) \/
  (exists response v data chunks,
     generate_content (prompt_of chapter) = Return response /\
     json_loads (extract_json response) = Some v /\
     iterate v = Return data /\
     format_chunks chapter (Z.of_nat (List.length data)) (enumerate 0 data) 0
       = Return chunks /\
     chunks <> [] /\
     create_chunks chapter = Return chunks).
Proof.
  unfold DocumentChunker.create_chunks.
  destruct (generate_content (prompt_of chapter)) as [response|e] eqn:G;
    cbn [bind try_except].
  2:{ left. split; [eapply oracle_raises; eauto | reflexivity]. }
  destruct response as [|c0 response'] eqn:R.
  { left. split; [eapply empty_response; eauto | reflexivity]. }
  rewrite <- R in *. clear R.
  destruct (json_loads (extract_json response)) as [v|] eqn:J.
  2:{ left. split; [eapply parse_fails; eauto | reflexivity]. }
  destruct (iterate v) as [data|e] eqn:I; cbn [bind try_except].
  2:{ left. split; [eapply not_iterable; eauto | reflexivity]. }
  destruct (format_chunks chapter (Z.of_nat (List.length data)) (enumerate 0 data) 0)
    as [chunks|e] eqn:F; cbn [bind try_except].
  2:{ left. split; [eapply record_raises; eauto | reflexivity]. }
  destruct chunks as [|c chunks'] eqn:C.
  { left. split; [eapply no_valid_chunk; eauto | reflexivity]. }
  right. exists response, v, data, (c :: chunks').
  repeat split; auto. discriminate.
Qed.

(** No exception leaves [create_chunks]. *)
Lemma create_chunks_returns chapter : exists chunks, create_chunks chapter = Return chunks.
Proof.
  destruct (create_chunks_cases chapter) as [[_ H]|(r & v & d & chunks & _ & _ & _ & _ & _ & H)];
    eauto.
Qed.


(** A chapter that fails at any stage yields the empty list. *)
Lemma fails_returns_nil chapter : fails chapter -> create_chunks chapter = Return [].
Proof.
  intros F. unfold DocumentChunker.create_chunks.
  destruct F as [e G|G|r G J|r v e G J I|r v d e G J I F|r v d G J I F];
    rewrite G; cbn [bind try_except]; try reflexivity;
    (destruct r; [reflexivity|]); rewrite J; try reflexivity;
    rewrite I; cbn [bind try_except]; try reflexivity;
    rewrite F; reflexivity.
Qed.


(** C10: whatever the response was, a non-empty list returned by
    [create_chunks] has contiguous offsets from 0: records that were dropped
    leave no gap, since the running offset moves on only when a chunk is
    appended. *)
Theorem create_chunks_offsets_after_drops chapter chunks :
  create_chunks chapter = Return chunks ->
  chunks <> [] ->
  contiguous_from 0 chunks.
Proof.
  intros H N.
  destruct (create_chunks_cases chapter)
    as [[_ H']|(r & v & d & chunks' & _ & _ & _ & F & _ & H')].
  - rewrite H in H'. injection H' as ->. congruence.
  - rewrite H in H'. injection H' as <-.
    eapply format_chunks_contiguous; eauto.
Qed.


Lemma chunk_loop_concat chapters :
  forall all_chunks, exists per_chapter,
    Forall2 (fun chapter chunks => create_chunks chapter = Return chunks)
      chapters per_chapter /\
    chunk_loop chapters all_chunks = Return (all_chunks ++ List.concat per_chapter).
Proof.
  induction chapters as [|chapter rest IH]; intros all_chunks.
  - exists []. split; [constructor|]. simpl. now rewrite app_nil_r.
  - destruct (create_chunks_returns chapter) as [chunks C].
    destruct (IH (all_chunks ++ chunks)) as (per & F & L).
    exists (chunks :: per). split; [constructor; auto|].
    cbn [DocumentChunker.chunk_loop]. rewrite C. cbn [bind].
    rewrite L. simpl. now rewrite app_assoc.
Qed.

(** C8: [chunk_chapters] returns, without raising, the concatenation in input
    order of what [create_chunks] returns for each chapter on its own; a
    chapter that fails at any stage (the oracle raises or answers nothing,
    the answer does not parse, the parsed value cannot be iterated, a record
    raises, no record is kept) contributes the empty list, whatever its
    siblings are. *)
Theorem chunk_chapters_concat chapters :
  exists per_chapter,
    Forall2 (fun chapter chunks => create_chunks chapter = Return chunks)
      chapters per_chapter /\
    chunk_chapters chapters = Return (List.concat per_chapter) /\
    Forall2 (fun chapter chunks => fails chapter -> chunks = [])
      chapters per_chapter.
Proof.
  destruct (chunk_loop_concat chapters []) as (per & F & L).
  exists per. repeat split; auto.
  clear L. induction F as [|chapter chunks rest per C F IH]; constructor; auto.
  intros Hf. apply fails_returns_nil in Hf. congruence.
Qed.

(** When the value parsed from the truncated string is not an array (the
    parse fails, or gives something else), [create_chunks] returns the empty
    list. *)
Lemma create_chunks_not_an_array chapter response :
  generate_content (prompt_of chapter) = Return response ->
  (forall records, json_loads (extract_json response) <> Some (PyList records)) ->
  create_chunks chapter = Return [].
Proof.
  intros G N. apply fails_returns_nil.
  destruct response as [|c0 rest] eqn:R; [now apply empty_response|].
  rewrite <- R in *. clear R.
  destruct (json_loads (extract_json response)) as [v|] eqn:J;
    [|eapply parse_fails; eauto].
  destruct v as [ | b | n | x | s | l | d ];
    try (eapply not_iterable; eauto; reflexivity).
  - (* a str: its characters are not dicts *)
    eapply no_valid_chunk; eauto; [reflexivity|].
    apply format_chunks_none_well_formed. rewrite enumerate_snd.
    apply Forall_forall. intros v Hin. apply in_map_iff in Hin as (c & <- & _).
    reflexivity.
  - exfalso. eapply N; eauto.
  - (* a dict: its keys are not dicts *)
    eapply no_valid_chunk; eauto; [reflexivity|].
    apply format_chunks_none_well_formed. rewrite enumerate_snd.
    apply Forall_forall. intros v Hin. apply in_map_iff in Hin as (c & <- & _).
    reflexivity.
Qed.

(** C4: when the string left by the bracket truncation does not parse to an
    array, [create_chunks] returns the empty list and raises nothing; a
    response with no bracket at all leaves the empty string, so it is such a
    response as soon as the parser rejects the empty string, as [json.loads]
    does. *)
Theorem create_chunks_malformed_response chapter response :
  generate_content (prompt_of chapter) = Return response ->
  ((forall records, json_loads (extract_json response) <> Some (PyList records)) ->
   create_chunks chapter = Return []) /\
  (Aux.lacks Aux.lbracket_char response = true ->
   Aux.lacks Aux.rbracket_char response = true ->
   extract_json response = [] /\
   (json_loads [] = None -> create_chunks chapter = Return [])).
Proof.
  intros G. split.
  - now apply create_chunks_not_an_array.
  - intros Ll Lr.
    pose proof (ExtractFacts.extract_json_no_brackets response Ll Lr) as E.
    split; [exact E|]. intros J.
    apply create_chunks_not_an_array with (response := response); [exact G|].
    intros records. rewrite E, J. discriminate.
Qed.

(** When every record that passes the test has string fields, the records
    that do not pass are skipped one by one: the loop appends one chunk per
    valid record. *)
Lemma format_chunks_skips_ill_formed chapter n data :
  Forall (fun iv => well_formed (snd iv) = true -> valid_record (snd iv) = true) data ->
  forall start, exists chunks,
    format_chunks chapter n data start = Return chunks /\
    List.length chunks
    = List.length (List.filter (fun iv => valid_record (snd iv)) data).
Proof.
  induction 1 as [|[i v] rest Hv _ IH]; intros start.
  - exists []. split; reflexivity.
  - cbn [snd] in Hv. cbn [List.filter snd].
    destruct (well_formed v) eqn:W.
    + specialize (Hv eq_refl). rewrite Hv.
      destruct (valid_chunk_of chapter n i start v Hv) as [c Hc].
      destruct (IH (Metadata.chunk_end (Chunk.metadata c))) as (tl & Htl & Hlen).
      exists (c :: tl). rewrite (format_chunks_step _ _ _ _ _ _ Hc), Htl.
      simpl. now rewrite Hlen.
    + destruct (valid_record v) eqn:V.
      * apply valid_record_well_formed in V. congruence.
      * rewrite format_chunks_skip by assumption. apply IH.
Qed.

End WithCollaborators.

(** C9: constructing the chunker with no [api_key] argument and no
    [GOOGLE_API_KEY] in the environment raises [ValueError]; with an explicit
    argument, or with a non-empty value in the environment, this error is not
    raised and the outcome is that of constructing the model.  (A variable
    that is set but empty counts as not set.) *)
Theorem init_requires_credential (M : Type) (generative_model : result M) :
  init None None generative_model = Raise (ValueError no_key_message) /\
  init None (Some []) generative_model = Raise (ValueError no_key_message) /\
  (forall k environ, init (Some k) environ generative_model = generative_model) /\
  (forall k, k <> [] -> init None (Some k) generative_model = generative_model).
Proof.
  repeat split.
  - intros k environ. unfold init. cbn [bind]. now destruct generative_model.
  - intros k Hk. unfold init. destruct k; [congruence|].
    cbn [bind]. now destruct generative_model.
Qed.

End ChunkerFacts.

(** ** The statements on concrete responses *)

Module Scenarios.

Import Json DocumentChunker ChunkSpec Samples.


(** C10 on an array whose middle record has no [summary]. *)
Lemma create_chunks_offsets_after_drops_witness :
  create_chunks (answers middle_invalid_text) Json.loads chapter1
    = Return middle_invalid_chunks /\
  contiguous_from 0 middle_invalid_chunks.
Proof.
  assert (create_chunks (answers middle_invalid_text) Json.loads chapter1
          = Return middle_invalid_chunks) as E by (vm_compute; reflexivity).
  split; [exact E|].
  apply (@ChunkerFacts.create_chunks_offsets_after_drops
           (answers middle_invalid_text) Json.loads chapter1
           middle_invalid_chunks E).
  discriminate.
Defined.


(** C4 on the apology of the specification, which has no bracket. *)
Lemma create_chunks_malformed_response_witness :
  create_chunks (answers apology_text) Json.loads chapter1 = Return [] /\
  extract_json apology_text = [].
Proof.
  destruct (@ChunkerFacts.create_chunks_malformed_response
              (answers apology_text) Json.loads chapter1 apology_text eq_refl)
    as [H1 H2].
  split.
  - apply H1. intros records. vm_compute. discriminate.
  - apply H2; vm_compute; reflexivity.
Defined.



(** C2 fails on the code: a record whose [text] is a number is not skipped;
    [strip] raises on it, and the valid record after it yields no chunk. *)
Theorem create_chunks_number_as_text :
  Json.loads (extract_json number_as_text_text) = Some (PyList number_as_text) /\
  List.map valid_record number_as_text = [false; true] /\
  format_chunks chapter1 2 (enumerate 0 number_as_text) 0 = Raise AttributeError /\
  create_chunks (answers number_as_text_text) Json.loads chapter1 = Return [].
Proof. vm_compute. repeat split; reflexivity. Qed.

(** The scenarios of the specification. *)
Example scenario_fenced :
  create_chunks (answers fenced_text) Json.loads chapter1
  = Return [Chunk.mk (u "A") (u "B")
              (Metadata.mk 1 (Chapter.title chapter1) 0 1 0 true true)].
Proof. vm_compute. reflexivity. Qed.

Example scenario_missing_summary :
  create_chunks (answers middle_invalid_text) Json.loads chapter1
  = Return middle_invalid_chunks.
Proof. vm_compute. reflexivity. Qed.

(** A chapter whose oracle call raises between two chapters that succeed. *)
Example scenario_failing_sibling :
  chunk_chapters
    (answers_by_chapter (Return one_record_text) (Raise OtherError)) Json.loads
    [chapter1; chapter2; chapter1]
  = Return
      [Chunk.mk (u "A") (u "B")
         (Metadata.mk 1 (Chapter.title chapter1) 0 1 0 true true);
       Chunk.mk (u "A") (u "B")
         (Metadata.mk 1 (Chapter.title chapter1) 0 1 0 true true)].
Proof. vm_compute. reflexivity. Qed.

End Scenarios.

(** ** More on the chunker *)

Module ChunkerMore.

Import Json DocumentChunker ChunkSpec MoreSpec ChunkerFacts.

Lemma strip_idem s : strip (strip s) = strip s.
Proof.
  unfold strip, lstrip.
  destruct (dropwhile isspace s) as [|c r] eqn:E; [reflexivity|].
  assert (isspace c = false) as W.
  { clear -E. induction s as [|a s IH]; simpl in E; [discriminate|].
    destruct (isspace a) eqn:A; [auto|]. injection E as <- _. exact A. }
  pose proof (ExtractFacts.rstrip_stop [] c r W) as E1. cbn [app] in E1.
  rewrite E1. cbn [dropwhile]. rewrite W.
  pose proof (ExtractFacts.rstrip_stop [] c (rstrip r) W) as E2. cbn [app] in E2.
  rewrite E2. now rewrite CleanFacts.rstrip_idem.
Qed.

Lemma chunk_of_fields chapter n i o v c :
  chunk_of chapter n i o v = Some c ->
  Metadata.chapter_number (Chunk.metadata c) = Chapter.chapter_number chapter /\
  Metadata.chapter_title (Chunk.metadata c) = Chapter.title chapter /\
  fields_of c = stripped_fields v.
Proof.
  destruct v as [ | | | | | |d]; simpl; try discriminate.
  destruct (dict_get text_key d) as [[ | | | |t| | ]|]; try discriminate.
  destruct (dict_get summary_key d) as [[ | | | |s| | ]|]; try discriminate.
  intros [= <-]. auto.
Qed.

Lemma stripped_fields_stripped v :
  strip (fst (stripped_fields v)) = fst (stripped_fields v) /\
  strip (snd (stripped_fields v)) = snd (stripped_fields v).
Proof.
  destruct v as [ | | | | | |d]; simpl; auto.
  destruct (dict_get text_key d) as [[ | | | |t| | ]|]; simpl; auto.
  destruct (dict_get summary_key d) as [[ | | | |s| | ]|]; simpl; auto.
  split; apply strip_idem.
Qed.

(** Every chunk the loop appends is built from an element of its input. *)
Lemma format_chunks_chunk_of chapter n data :
  forall start chunks,
    format_chunks chapter n data start = Return chunks ->
    forall c, In c chunks ->
      exists i o v, In (i, v) data /\ chunk_of chapter n i o v = Some c.
Proof.
  induction data as [|[i v] rest IH]; intros start chunks H c Hin.
  - injection H as <-. destruct Hin.
  - apply format_chunks_inv in H as [[_ H]|(c0 & tl & Hc & -> & H)].
    + destruct (IH _ _ H c Hin) as (j & o & w & Hw & E).
      exists j, o, w. split; [now right|exact E].
    + destruct Hin as [<-|Hin].
      * exists i, start, v. split; [now left|exact Hc].
      * destruct (IH _ _ H c Hin) as (j & o & w & Hw & E).
        exists j, o, w. split; [now right|exact E].
Qed.

Lemma len_nonneg s : (0 <= len s)%Z.
Proof. unfold len. lia. Qed.

Lemma contiguous_from_bounds chunks :
  forall o, contiguous_from o chunks ->
    forall c, In c chunks ->
      (o <= Metadata.chunk_start (Chunk.metadata c)
         <= Metadata.chunk_end (Chunk.metadata c))%Z.
Proof.
  induction chunks as [|h tl IH]; intros o H c Hin; [destruct Hin|].
  destruct H as (Hs & He & Ht). pose proof (len_nonneg (Chunk.text h)).
  destruct Hin as [<-|Hin]; [lia|].
  specialize (IH _ Ht c Hin). lia.
Qed.

(** The start of a chunk is the offset the loop began with plus the lengths
    of the texts before it. *)
Lemma contiguous_from_total pre c post :
  forall o, contiguous_from o (pre ++ c :: post) ->
    Metadata.chunk_start (Chunk.metadata c) = (o + total_len pre)%Z /\
    Metadata.chunk_end (Chunk.metadata c)
      = (o + total_len pre + len (Chunk.text c))%Z.
Proof.
  induction pre as [|h pre IH]; intros o H; simpl in H.
  - destruct H as (Hs & He & _). simpl. rewrite Z.add_0_r. split; congruence.
  - destruct H as (Hs & He & Ht). destruct (IH _ Ht) as [A B].
    simpl. rewrite A, B, He. split; lia.
Qed.

(** The indices of the chunks appended grow strictly, within the positions
    the loop ran over. *)
Lemma format_chunks_indices chapter n records :
  forall k start chunks,
    format_chunks chapter n (enumerate k records) start = Return chunks ->
    StronglySorted Z.lt
      (List.map (fun c => Metadata.chunk_index (Chunk.metadata c)) chunks) /\
    Forall (fun c =>
              (k <= Metadata.chunk_index (Chunk.metadata c)
                 < k + Z.of_nat (List.length records))%Z /\
              Metadata.is_first_chunk (Chunk.metadata c)
                = (Metadata.chunk_index (Chunk.metadata c) =? 0)%Z /\
              Metadata.is_last_chunk (Chunk.metadata c)
                = (Metadata.chunk_index (Chunk.metadata c) =? n - 1)%Z) chunks.
Proof.
  induction records as [|r rest IH]; intros k start chunks H.
  - injection H as <-. split; constructor.
  - cbn [enumerate] in H.
    apply format_chunks_inv in H as [[_ H]|(c0 & tl & Hc & -> & H)].
    + destruct (IH _ _ _ H) as [S F]. split; [exact S|].
      eapply Forall_impl; [|exact F]. cbn [List.length].
      intros c (B & Hf & Hl). repeat split; auto; lia.
    + destruct (IH _ _ _ H) as [S F].
      destruct (chunk_of_metadata _ _ _ _ _ Hc) as (_ & _ & Hi & Hf & Hl).
      split.
      * cbn [List.map]. constructor; [exact S|].
        apply Forall_map. eapply Forall_impl; [|exact F].
        intros c (B & _). rewrite Hi. lia.
      * constructor.
        -- rewrite Hi. cbn [List.length]. repeat split; auto; lia.
        -- eapply Forall_impl; [|exact F]. cbn [List.length].
           intros c (B & Hf' & Hl'). repeat split; auto; lia.
Qed.

Lemma sorted_before_last {A : Type} (f : A -> Z) pre l :
  StronglySorted Z.lt (List.map f (pre ++ [l])) ->
  forall x, In x pre -> (f x < f l)%Z.
Proof.
  induction pre as [|h pre IH]; intros S x Hin; [destruct Hin|].
  cbn [app List.map] in S. inversion S as [|? ? S' F]; subst.
  destruct Hin as [<-|Hin]; [|auto].
  rewrite Forall_forall in F. apply F. apply in_map. apply in_or_app.
  right. now left.
Qed.

(** A record that passes the test and has a field that is not a string makes
    the loop raise, wherever it stands. *)
Lemma format_chunks_raises chapter n data :
  (exists i v, In (i, v) data /\ well_formed v = true /\ valid_record v = false) ->
  forall start, exists e, format_chunks chapter n data start = Raise e.
Proof.
  induction data as [|[i v] rest IH]; intros (j & w & Hin & W & V) start.
  - destruct Hin.
  - destruct (well_formed v) eqn:Wv.
    + destruct (valid_record v) eqn:Vv.
      * destruct (valid_chunk_of chapter n i start v Vv) as [c Hc].
        rewrite (format_chunks_step _ _ _ _ _ _ Hc).
        destruct Hin as [E|Hin]; [injection E as -> ->; congruence|].
        destruct (IH (ex_intro _ j (ex_intro _ w (conj Hin (conj W V))))
                    (Metadata.chunk_end (Chunk.metadata c))) as [e ->].
        exists e. reflexivity.
      * clear IH Hin. cbn [format_chunks]. rewrite Wv. cbn [negb].
        destruct v as [ | | | | | |d]; try discriminate Wv.
        cbn [items_of well_formed] in *. unfold dict_has, getitem in *.
        cbn [valid_record] in Vv.
        destruct (dict_get text_key d) as [tv|]; [|discriminate Wv].
        destruct (dict_get summary_key d) as [sv|]; [|discriminate Wv].
        cbn [bind].
        destruct tv; cbn [strip_method bind]; eauto;
          destruct sv; cbn [strip_method bind]; eauto; discriminate Vv.
    + rewrite format_chunks_skip by assumption.
      destruct Hin as [E|Hin]; [injection E as -> ->; congruence|].
      apply IH. eauto.
Qed.

(** When every record that passes the test is valid, the loop appends the
    trimmed fields of the valid records, in order. *)
Lemma format_chunks_fields chapter n data :
  Forall (fun iv => well_formed (snd iv) = true -> valid_record (snd iv) = true) data ->
  forall start, exists chunks,
    format_chunks chapter n data start = Return chunks /\
    List.map fields_of chunks
    = List.map stripped_fields
        (List.filter valid_record (List.map snd data)).
Proof.
  induction 1 as [|[i v] rest Hv _ IH]; intros start.
  - exists []. split; reflexivity.
  - cbn [snd] in Hv. cbn [List.map List.filter snd].
    destruct (well_formed v) eqn:W.
    + specialize (Hv eq_refl). rewrite Hv.
      destruct (valid_chunk_of chapter n i start v Hv) as [c Hc].
      destruct (IH (Metadata.chunk_end (Chunk.metadata c))) as (tl & Htl & Hf).
      exists (c :: tl). rewrite (format_chunks_step _ _ _ _ _ _ Hc), Htl.
      split; [reflexivity|]. cbn [List.map]. rewrite Hf.
      destruct (chunk_of_fields _ _ _ _ _ Hc) as (_ & _ & ->). reflexivity.
    + destruct (valid_record v) eqn:V.
      * apply valid_record_well_formed in V. congruence.
      * rewrite format_chunks_skip by assumption. apply IH.
Qed.

Section WithCollaborators.

Variable generate_content : str -> result str.
Variable json_loads : str -> option value.

Local Abbreviation create_chunks := (create_chunks generate_content json_loads).
Local Abbreviation chunk_chapters := (chunk_chapters generate_content json_loads).
Local Abbreviation chunk_loop := (chunk_loop generate_content json_loads).

(** What [create_chunks] returns is what the loop appended from offset 0. *)
Lemma create_chunks_from_loop chapter chunks :
  create_chunks chapter = Return chunks ->
  chunks = [] \/
  exists data,
    format_chunks chapter (Z.of_nat (List.length data)) (enumerate 0 data) 0
      = Return chunks.
Proof.
  intros H.
  destruct (create_chunks_cases generate_content json_loads chapter)
    as [[_ H']|(r & v & d & chunks' & _ & _ & _ & F & _ & H')];
    rewrite H in H'; injection H' as ->; eauto.
Qed.

(** X1: every chunk [create_chunks] returns carries the number and the title
    of the chapter, its text and its summary are trimmed, and its offsets
    satisfy [0 <= chunk_start <= chunk_end]. *)
Theorem create_chunks_chunk_fields chapter chunks c :
  create_chunks chapter = Return chunks ->
  In c chunks ->
  Metadata.chapter_number (Chunk.metadata c) = Chapter.chapter_number chapter /\
  Metadata.chapter_title (Chunk.metadata c) = Chapter.title chapter /\
  strip (Chunk.text c) = Chunk.text c /\
  strip (Chunk.summary c) = Chunk.summary c /\
  (0 <= Metadata.chunk_start (Chunk.metadata c)
     <= Metadata.chunk_end (Chunk.metadata c))%Z.
Proof.
  intros H Hin.
  destruct (create_chunks_from_loop _ H) as [->|[data F]]; [destruct Hin|].
  destruct (format_chunks_chunk_of _ _ _ _ F c Hin) as (i & o & v & _ & Hc).
  destruct (chunk_of_fields _ _ _ _ _ Hc) as (Hn & Ht & Hf).
  destruct (stripped_fields_stripped v) as [S1 S2]. rewrite <- Hf in S1, S2.
  repeat split; auto;
    apply (contiguous_from_bounds chunks 0 (format_chunks_contiguous _ _ _ _ F) c Hin).
Qed.

(** X2: the indices of the chunks returned grow strictly along the list; a
    chunk with [is_first_chunk] is the first of the list and a chunk with
    [is_last_chunk] is the last one, so each flag is set on one chunk at
    most. *)
Theorem create_chunks_indices_increase chapter chunks :
  create_chunks chapter = Return chunks ->
  StronglySorted Z.lt
    (List.map (fun c => Metadata.chunk_index (Chunk.metadata c)) chunks) /\
  (forall c, In c chunks ->
     Metadata.is_first_chunk (Chunk.metadata c) = true ->
     exists rest, chunks = c :: rest) /\
  (forall c, In c chunks ->
     Metadata.is_last_chunk (Chunk.metadata c) = true ->
     exists front, chunks = front ++ [c]).
Proof.
  intros H.
  destruct (create_chunks_from_loop _ H) as [->|[data F]].
  { split; [constructor|]. split; intros c []. }
  destruct (format_chunks_indices _ _ _ _ _ F) as [S B].
  rewrite Forall_forall in B. split; [exact S|]. split.
  - intros c Hin Hf. destruct (B c Hin) as (_ & E & _).
    rewrite E in Hf. apply Z.eqb_eq in Hf.
    destruct chunks as [|h tl]; [destruct Hin|].
    destruct Hin as [<-|Hin]; [eauto|]. exfalso.
    cbn [List.map] in S. inversion S as [|? ? _ L]; subst.
    rewrite Forall_forall in L.
    specialize (L _ (in_map (fun c => Metadata.chunk_index (Chunk.metadata c)) _ _ Hin)).
    destruct (B h (or_introl eq_refl)) as (Bh & _). cbn beta in L. lia.
  - intros c Hin Hl. destruct (B c Hin) as (_ & _ & E).
    rewrite E in Hl. apply Z.eqb_eq in Hl.
    destruct (exists_last (l := chunks)) as (front & l & ->);
      [intros ->; destruct Hin|].
    apply in_app_or in Hin as [Hin|[<-|[]]]; [|eauto]. exfalso.
    pose proof (sorted_before_last _ _ _ S c Hin) as L.
    assert (In l (front ++ [l])) as Hl' by (apply in_or_app; right; now left).
    destruct (B l Hl') as (Bl & _).
    cbn beta in L. lia.
Qed.

(** X3: in the list returned, the [chunk_start] of a chunk is the sum of the
    lengths of the texts of the chunks before it, and its [chunk_end] adds
    the length of its own text. *)
Theorem create_chunks_start_is_total chapter front c rest :
  create_chunks chapter = Return (front ++ c :: rest) ->
  Metadata.chunk_start (Chunk.metadata c) = total_len front /\
  Metadata.chunk_end (Chunk.metadata c)
    = (total_len front + len (Chunk.text c))%Z.
Proof.
  intros H.
  destruct (create_chunks_from_loop _ H) as [E|[data F]].
  { destruct front; discriminate E. }
  apply format_chunks_contiguous in F.
  apply (contiguous_from_total front c rest 0 F).
Qed.

(** X4: when one record of the parsed array passes the key test and has a
    [text] or a [summary] that is not a string, [create_chunks] returns the
    empty list, whatever the other records are: no partial list comes back. *)
Theorem create_chunks_all_or_nothing chapter response records r :
  generate_content (prompt_of chapter) = Return response ->
  json_loads (extract_json response) = Some (PyList records) ->
  In r records ->
  well_formed r = true ->
  valid_record r = false ->
  create_chunks chapter = Return [].
Proof.
  intros G J Hin W V. apply fails_returns_nil.
  destruct response as [|c0 rest] eqn:R; [now apply empty_response|].
  rewrite <- R in *. clear R.
  assert (exists i v, In (i, v) (enumerate 0 records)
                      /\ well_formed v = true /\ valid_record v = false) as B.
  { rewrite <- (enumerate_snd records 0) in Hin.
    apply in_map_iff in Hin as ([i v] & <- & Hin). exists i, v. auto. }
  destruct (@format_chunks_raises chapter (Z.of_nat (List.length records)) _ B 0)
    as [e F].
  eapply record_raises; eauto. reflexivity.
Qed.

(** X5: when every record of the parsed array that passes the key test is
    valid, and one is, the records that do not pass are skipped one by one:
    [create_chunks] returns one chunk per valid record, in order, with the
    trimmed text and summary of that record. *)
Theorem create_chunks_keeps_valid_records chapter response records :
  generate_content (prompt_of chapter) = Return response ->
  response <> [] ->
  json_loads (extract_json response) = Some (PyList records) ->
  forallb (fun r => implb (well_formed r) (valid_record r)) records = true ->
  existsb valid_record records = true ->
  exists chunks,
    create_chunks chapter = Return chunks /\
    List.map fields_of chunks
    = List.map stripped_fields (List.filter valid_record records).
Proof.
  intros G R J A E.
  assert (Forall (fun iv => well_formed (snd iv) = true
                            -> valid_record (snd iv) = true)
            (enumerate 0 records)) as A'.
  { rewrite forallb_forall in A. apply Forall_forall. intros [i v] Hin W.
    assert (In v records) as Hv
      by (rewrite <- (enumerate_snd records 0); change v with (snd (i, v));
          now apply in_map).
    specialize (A v Hv). cbn [snd] in *. rewrite W in A. exact A. }
  destruct (format_chunks_fields chapter (Z.of_nat (List.length records)) A' 0)
    as (chunks & F & Hf).
  rewrite enumerate_snd in Hf.
  exists chunks. split; [|exact Hf].
  unfold DocumentChunker.create_chunks. rewrite G. cbn [bind].
  destruct response; [congruence|]. rewrite J. cbn [iterate bind].
  rewrite F. cbn [bind]. destruct chunks; [|reflexivity].
  exfalso. apply existsb_exists in E as (x & Hx & Vx).
  assert (In x (List.filter valid_record records)) as Hin
    by (apply filter_In; auto).
  destruct (List.filter valid_record records); [destruct Hin|discriminate Hf].
Qed.

Lemma chunk_loop_app a :
  forall b acc,
    chunk_loop (a ++ b) acc = bind (chunk_loop a acc) (chunk_loop b).
Proof.
  induction a as [|c a IH]; intros b acc; [reflexivity|].
  cbn [app DocumentChunker.chunk_loop].
  destruct (create_chunks c); cbn [bind]; [apply IH|reflexivity].
Qed.

Lemma chunk_loop_acc b :
  forall acc,
    chunk_loop b acc
    = bind (chunk_loop b []) (fun chunks => Return (acc ++ chunks)).
Proof.
  induction b as [|c b IH]; intros acc.
  - cbn [DocumentChunker.chunk_loop bind]. now rewrite app_nil_r.
  - cbn [DocumentChunker.chunk_loop].
    destruct (create_chunks c) as [chunks|e]; cbn [bind app]; [|reflexivity].
    rewrite (IH (acc ++ chunks)), (IH chunks).
    destruct (chunk_loop b []); cbn [bind]; [|reflexivity].
    now rewrite app_assoc.
Qed.

(** X6: [chunk_chapters] of two lists of chapters put end to end is what it
    returns for the first followed by what it returns for the second. *)
Theorem chunk_chapters_app a b :
  chunk_chapters (a ++ b)
  = bind (chunk_chapters a) (fun x =>
      bind (chunk_chapters b) (fun y => Return (x ++ y))).
Proof.
  unfold DocumentChunker.chunk_chapters. rewrite chunk_loop_app.
  destruct (chunk_loop a []) as [x|e]; cbn [bind]; [|reflexivity].
  apply chunk_loop_acc.
Qed.

(** X7: what [chunk_chapters] returns falls into one block per chapter, in
    the order of the chapters; the offsets of every block are contiguous from
    0, and its chunks carry the number and the title of its chapter. *)
Theorem chunk_chapters_blocks chapters :
  exists blocks,
    chunk_chapters chapters = Return (List.concat blocks) /\
    Forall2
      (fun chapter block =>
         contiguous_from 0 block /\
         Forall (fun c =>
                   Metadata.chapter_number (Chunk.metadata c)
                     = Chapter.chapter_number chapter /\
                   Metadata.chapter_title (Chunk.metadata c)
                     = Chapter.title chapter) block)
      chapters blocks.
Proof.
  destruct (chunk_loop_concat generate_content json_loads chapters [])
    as (blocks & F & L).
  exists blocks. split; [exact L|]. clear L.
  induction F as [|chapter block rest blocks C F IH]; constructor; auto.
  destruct (create_chunks_from_loop _ C) as [->|[data D]];
    [split; [exact I|constructor]|].
  split; [eapply format_chunks_contiguous; eauto|].
  apply Forall_forall. intros c Hin.
  destruct (format_chunks_chunk_of _ _ _ _ D c Hin) as (i & o & v & _ & Hc).
  destruct (chunk_of_fields _ _ _ _ _ Hc) as (Hn & Ht & _). auto.
Qed.

End WithCollaborators.

End ChunkerMore.

(** ** More on text cleaning *)

Module CleanMore.

Import Re DataPreprocessor Aux MoreSpec CleanFacts.

Lemma dropwhile_snoc p l c :
  dropwhile p (l ++ [c])
  = match dropwhile p l with
    | [] => if p c then [] else [c]
    | d => d ++ [c]
    end.
Proof.
  induction l as [|a l IH]; simpl; [reflexivity|].
  destruct (p a); [exact IH|reflexivity].
Qed.

(** [rstrip] from the left: a character stays when something stays after it
    or when it is not whitespace. *)
Lemma rstrip_cons c y :
  rstrip (c :: y)
  = match rstrip y with
    | [] => if isspace c then [] else [c]
    | _ :: _ => c :: rstrip y
    end.
Proof.
  unfold rstrip. cbn [rev]. rewrite dropwhile_snoc.
  destruct (dropwhile isspace (rev y)) as [|a d]; cbn [rev].
  - now destruct (isspace c).
  - rewrite rev_app_distr. cbn [rev app].
    destruct (rev d ++ [a]) eqn:E; [|reflexivity].
    now apply app_eq_nil in E as [_ E].
Qed.

Lemma isspace_space : isspace 32%N = true.
Proof. reflexivity. Qed.

(** What is left of a collapsed text once its end is stripped. *)
Lemma rstrip_collapse_shape t :
  forall b,
    single_spaced (rstrip (collapse b t)) = true /\
    (b = true ->
     match rstrip (collapse b t) with
     | c :: _ => isspace c = false
     | [] => True
     end).
Proof.
  induction t as [|c t IH]; intros b; [split; [reflexivity|now intros _]|].
  cbn [collapse]. destruct (isspace c) eqn:W.
  - destruct b; [apply IH|]. split; [|discriminate].
    rewrite rstrip_cons. destruct (IH true) as [S H]. specialize (H eq_refl).
    destruct (rstrip (collapse true t)) as [|d z] eqn:E.
    + now rewrite isspace_space.
    + change (single_spaced (32%N :: d :: z))
        with ((if isspace 32%N then ch_eqb 32%N 32%N && negb (isspace d) else true)
              && single_spaced (d :: z)).
      rewrite isspace_space, H, S. reflexivity.
  - rewrite rstrip_cons. destruct (IH false) as [S _].
    destruct (rstrip (collapse false t)) as [|d z] eqn:E.
    + rewrite W. cbn [single_spaced]. rewrite W. split; [reflexivity|now intros _].
    + split; [|now intros _].
      change (single_spaced (c :: d :: z))
        with ((if isspace c then ch_eqb c 32%N && negb (isspace d) else true)
              && single_spaced (d :: z)).
      rewrite W. exact S.
Qed.

Lemma collapse_single_spaced s :
  single_spaced s = true ->
  forall b,
    (b = true -> match s with c :: _ => isspace c = false | [] => True end) ->
    collapse b s = s.
Proof.
  induction s as [|c s IH]; intros S b H; [reflexivity|].
  cbn [single_spaced] in S. apply andb_true_iff in S as [Sc S].
  cbn [collapse]. destruct (isspace c) eqn:W.
  - destruct b; [specialize (H eq_refl); congruence|].
    apply andb_true_iff in Sc as [Ec Sd]. apply ch_eqb_eq in Ec. subst c.
    f_equal. apply IH; [exact S|]. intros _.
    destruct s as [|d s]; [exact I|]. now apply negb_true_iff in Sd.
  - f_equal. apply IH; [exact S|discriminate].
Qed.

Lemma rstrip_single_spaced s : single_spaced s = true -> rstrip s = s.
Proof.
  induction s as [|c s IH]; intros S; [reflexivity|].
  cbn [single_spaced] in S. apply andb_true_iff in S as [Sc S].
  rewrite rstrip_cons, (IH S).
  destruct s as [|d s]; [|reflexivity].
  destruct (isspace c); [|reflexivity].
  apply andb_true_iff in Sc as [_ Sc]. discriminate.
Qed.

Lemma filter_visible_collapse t :
  forall b, List.filter visible (collapse b t) = List.filter visible t.
Proof.
  induction t as [|c t IH]; intros b; [reflexivity|].
  cbn [collapse List.filter]. unfold visible at 2. destruct (isspace c) eqn:W.
  - cbn [negb]. destruct b; [apply IH|].
    cbn [List.filter]. unfold visible at 1. rewrite isspace_space. apply IH.
  - cbn [negb List.filter]. unfold visible at 1. rewrite W. cbn [negb].
    f_equal. apply IH.
Qed.

Lemma filter_visible_whitespace t :
  forallb isspace t = true -> List.filter visible t = [].
Proof.
  induction t as [|c t IH]; intros H; [reflexivity|].
  cbn [forallb] in H. apply andb_true_iff in H as [Hc H].
  cbn [List.filter]. unfold visible at 1. rewrite Hc. auto.
Qed.

Lemma filter_visible_rstrip y :
  List.filter visible (rstrip y) = List.filter visible y.
Proof.
  destruct (rstrip_prefix y) as (t & E & F).
  rewrite E at 2. rewrite filter_app, (filter_visible_whitespace t F).
  now rewrite app_nil_r.
Qed.

Lemma clean_text_is_tidy_aux text : tidy (_clean_text text) = true.
Proof.
  rewrite clean_text_eq. unfold tidy.
  destruct (rstrip_collapse_shape text true) as [S H]. specialize (H eq_refl).
  rewrite S. destruct (rstrip (collapse true text)); [reflexivity|].
  now rewrite H.
Qed.

(** X8: the result of [_clean_text] has no whitespace at either end, and the
    only whitespace inside is a single plain space between two characters that
    are not whitespace. *)
Theorem clean_text_is_tidy text : tidy (_clean_text text) = true.
Proof.
  rewrite clean_text_eq. unfold tidy.
  destruct (rstrip_collapse_shape text true) as [S H]. specialize (H eq_refl).
  rewrite S. destruct (rstrip (collapse true text)); [reflexivity|].
  now rewrite H.
Qed.

Lemma clean_text_fixes_tidy_aux text :
  tidy text = true -> _clean_text text = text.
Proof.
  unfold tidy. intros T. apply andb_true_iff in T as [H S].
  rewrite clean_text_eq, collapse_single_spaced; auto.
  - now apply rstrip_single_spaced.
  - intros _. destruct text; [exact I|]. now apply negb_true_iff in H.
Qed.

Lemma clean_text_twice text : _clean_text (_clean_text text) = _clean_text text.
Proof. apply clean_text_fixes_tidy_aux, clean_text_is_tidy_aux. Qed.

(** X9: [_clean_text] leaves a tidy text as it is: the texts it returns are
    exactly the texts it does not change. *)
Theorem clean_text_fixes_tidy text :
  tidy text = true -> _clean_text text = text.
Proof.
  unfold tidy. intros T. apply andb_true_iff in T as [H S].
  rewrite clean_text_eq, collapse_single_spaced; auto.
  - now apply rstrip_single_spaced.
  - intros _. destruct text; [exact I|]. now apply negb_true_iff in H.
Qed.

(** X10: [_clean_text] touches whitespace only: the characters that are not
    whitespace come out all, in the same order. *)
Theorem clean_text_keeps_visible text :
  List.filter visible (_clean_text text) = List.filter visible text.
Proof.
  rewrite clean_text_eq, filter_visible_rstrip. apply filter_visible_collapse.
Qed.

End CleanMore.

(** ** More on chapter segmentation *)

Module SegmentMore.

Import Re DataPreprocessor Aux MoreSpec CleanFacts StringFacts.

Definition chapter_word : str := u "Chapter".

Lemma contains_cons w c y :
  contains w (c :: y) = startswith w (c :: y) || contains w y.
Proof.
  unfold contains. cbn [find_nat].
  destruct (startswith w (c :: y)); [reflexivity|].
  now destruct (find_nat w y).
Qed.

Lemma startswith_split p s : startswith p s = true -> exists r, s = p ++ r.
Proof.
  revert s. induction p as [|a p IH]; intros s H; [now exists s|].
  destruct s as [|c s]; [discriminate|]. simpl in H.
  apply andb_true_iff in H as [E H]. apply ch_eqb_eq in E. subst c.
  destruct (IH s H) as [r ->]. now exists r.
Qed.

Lemma contains_split w m : contains w m = true -> exists x y, m = x ++ w ++ y.
Proof.
  induction m as [|c m IH]; intros H.
  - unfold contains in H. cbn [find_nat] in H.
    destruct (startswith w []) eqn:E; [|discriminate].
    destruct (startswith_split w [] E) as [r ->]. now exists [], r.
  - rewrite contains_cons in H. apply orb_true_iff in H as [H|H].
    + destruct (startswith_split w _ H) as [r ->]. now exists [], r.
    + destruct (IH H) as (x & y & ->). now exists (c :: x), y.
Qed.

(** An occurrence in a part is an occurrence in the whole. *)
Lemma contains_inside w a m b :
  contains w m = true -> contains w (a ++ m ++ b) = true.
Proof.
  intros H. destruct (contains_split w m H) as (x & y & ->).
  replace (a ++ (x ++ w ++ y) ++ b) with ((a ++ x) ++ w ++ (y ++ b))
    by (now rewrite <- !app_assoc).
  apply contains_middle.
Qed.

Lemma contains_rstrip w y : contains w (rstrip y) = true -> contains w y = true.
Proof.
  intros H. destruct (rstrip_prefix y) as (t & E & _). rewrite E.
  apply (contains_inside w [] (rstrip y) t H).
Qed.

Lemma contains_lstrip w y : contains w (lstrip y) = true -> contains w y = true.
Proof.
  intros H. destruct (dropwhile_suffix isspace y) as (t & E & _). rewrite E.
  pose proof (contains_inside w t (lstrip y) [] H) as C.
  now rewrite app_nil_r in C.
Qed.

Lemma contains_strip w y : contains w (strip y) = true -> contains w y = true.
Proof. unfold strip. intros H. now apply contains_lstrip, contains_rstrip. Qed.

(** A word without whitespace that starts a collapsed text started the text
    itself. *)
Lemma startswith_collapse w :
  forallb visible w = true ->
  forall s, startswith w (collapse false s) = true -> startswith w s = true.
Proof.
  induction w as [|a w IH]; intros V s H; [reflexivity|].
  cbn [forallb] in V. apply andb_true_iff in V as [Va V].
  destruct s as [|c s]; [discriminate H|].
  cbn [collapse] in H. destruct (isspace c) eqn:W.
  - cbn [startswith] in H. apply andb_true_iff in H as [E _].
    apply ch_eqb_eq in E. subst a. discriminate Va.
  - cbn [startswith] in *. apply andb_true_iff in H as [E H].
    rewrite E. cbn [andb]. now apply IH.
Qed.

(** Collapsing whitespace brings in no occurrence of a word without
    whitespace. *)
Lemma contains_collapse a w :
  forallb visible (a :: w) = true ->
  forall s b, contains (a :: w) (collapse b s) = true -> contains (a :: w) s = true.
Proof.
  intros V. pose proof V as V'. cbn [forallb] in V'.
  apply andb_true_iff in V' as [Va Vw].
  induction s as [|c s IH]; intros b H; [exact H|].
  rewrite contains_cons. cbn [collapse] in H. destruct (isspace c) eqn:W.
  - apply orb_true_iff. right. destruct b; [now apply (IH true)|].
    rewrite contains_cons in H. apply orb_true_iff in H as [H|H];
      [|now apply (IH true)].
    cbn [startswith] in H. apply andb_true_iff in H as [E _].
    apply ch_eqb_eq in E. subst a. discriminate Va.
  - rewrite contains_cons in H. apply orb_true_iff in H as [H|H];
      apply orb_true_iff; [left|right; now apply (IH false)].
    cbn [startswith] in *. apply andb_true_iff in H as [E H].
    rewrite E. cbn [andb]. now apply startswith_collapse.
Qed.

Lemma contains_clean_text a w text :
  forallb visible (a :: w) = true ->
  contains (a :: w) (_clean_text text) = true -> contains (a :: w) text = true.
Proof.
  intros V H. rewrite clean_text_eq in H.
  apply contains_rstrip in H. now apply contains_collapse in H.
Qed.

Lemma startswith_firstn w k s :
  startswith w (firstn k s) = true -> startswith w s = true.
Proof.
  revert k s. induction w as [|a w IH]; intros k s H; [reflexivity|].
  destruct k, s as [|c s]; try discriminate H.
  cbn [firstn startswith] in *. apply andb_true_iff in H as [E H].
  rewrite E. cbn [andb]. eauto.
Qed.

(** What stands before the first occurrence holds no occurrence. *)
Lemma find_nat_firstn a w s :
  forall i, find_nat (a :: w) s = Some i ->
    find_nat (a :: w) (firstn i s) = None /\ (i <= List.length s)%nat.
Proof.
  induction s as [|c s IH]; intros i H.
  - cbn in H. discriminate.
  - cbn [find_nat] in H. destruct (startswith (a :: w) (c :: s)) eqn:E.
    + injection H as <-. split; [reflexivity|cbn; lia].
    + destruct (find_nat (a :: w) s) as [j|] eqn:F; [|discriminate].
      injection H as <-. destruct (IH j eq_refl) as [N L].
      split; [|cbn; lia]. cbn [firstn find_nat].
      destruct (startswith (a :: w) (c :: firstn j s)) eqn:E'.
      * apply (startswith_firstn (a :: w) (S j) (c :: s)) in E'. congruence.
      * now rewrite N.
Qed.

(** The text of a chapter, before cleaning, stops short of the next
    occurrence of the word. *)
Lemma body_lacks_word a w text start :
  let next_match := find_from (a :: w) text start in
  let next_match := if (next_match =? -1)%Z then len text else next_match in
  contains (a :: w) (slice text (Z.of_nat start) next_match) = false.
Proof.
  cbv zeta. unfold find_from, slice, slice_index, len.
  destruct (Z.ltb_spec (Z.of_nat start) 0); [lia|].
  destruct (Nat.ltb_spec (List.length text) start) as [L|L].
  - rewrite Z.eqb_refl.
    destruct (Z.ltb_spec (Z.of_nat (List.length text)) 0); [lia|].
    rewrite Z.min_id, Z.min_r by lia. rewrite Z.sub_diag. reflexivity.
  - destruct (find_nat (a :: w) (skipn start text)) as [i|] eqn:F.
    + destruct (find_nat_firstn _ _ _ F) as [N B]. rewrite length_skipn in B.
      destruct (Z.eqb_spec (Z.of_nat (start + i)) (-1)); [lia|].
      destruct (Z.ltb_spec (Z.of_nat (start + i)) 0); [lia|].
      rewrite !Z.min_l by lia. rewrite Nat2Z.id.
      replace (Z.to_nat (Z.of_nat (start + i) - Z.of_nat start)) with i by lia.
      unfold contains. now rewrite N.
    + rewrite Z.eqb_refl.
      destruct (Z.ltb_spec (Z.of_nat (List.length text)) 0); [lia|].
      rewrite Z.min_id, Z.min_l by lia. rewrite Nat2Z.id.
      rewrite firstn_all2 by (rewrite length_skipn; lia).
      unfold contains. now rewrite F.
Qed.

Lemma strip_fixed s : strip (strip s) = strip s.
Proof. apply ChunkerMore.strip_idem. Qed.

(** X11: every chapter [process_novel] returns has a tidy text, a [length]
    that is the length of that text, and a title without whitespace at either
    end. *)
Theorem process_novel_chapters_normalised text :
  exists chapters,
    process_novel (Return text) = Return chapters /\
    Forall (fun c =>
              tidy (Chapter.text c) = true /\
              Chapter.length c = len (Chapter.text c) /\
              strip (Chapter.title c) = Chapter.title c) chapters.
Proof.
  eexists. split; [reflexivity|].
  apply Forall_forall. intros c Hin.
  apply in_map_iff in Hin as ([i m] & <- & _). cbn [fst snd chapter_of].
  cbn [Chapter.text Chapter.length Chapter.title].
  repeat split; [apply CleanMore.clean_text_is_tidy_aux|apply strip_fixed].
Qed.

(** X12: no chapter text holds the word Chapter: the text of a chapter is cut
    at the first occurrence of the word after the heading, whether or not a
    heading starts there. *)
Theorem process_novel_text_lacks_word text :
  exists chapters,
    process_novel (Return text) = Return chapters /\
    Forall (fun c => contains chapter_word (Chapter.text c) = false) chapters.
Proof.
  eexists. split; [reflexivity|].
  apply Forall_forall. intros c Hin.
  apply in_map_iff in Hin as ([i m] & <- & _). cbn [fst snd chapter_of].
  cbn [Chapter.text].
  match goal with |- contains _ ?t = false => destruct (contains chapter_word t) eqn:E end;
    [|reflexivity].
  apply (contains_clean_text 67%N (u "hapter")) in E; [|reflexivity].
  apply contains_strip in E.
  pose proof (body_lacks_word 67%N (u "hapter") (sub headers [] text) (m_end m)) as B.
  cbv zeta in B. pose proof (eq_trans (eq_sym E) B) as C. discriminate C.
Qed.

End SegmentMore.

(** ** More on the string that is parsed *)

Module ExtractMore.

Import Aux CleanFacts StringFacts ExtractFacts DocumentChunker.

Lemma find_nat_char_nth c s :
  forall k, find_nat [c] s = Some k ->
    exists s1 s2, s = s1 ++ c :: s2 /\ List.length s1 = k.
Proof.
  induction s as [|x s IH]; intros k H; [discriminate H|].
  cbn [find_nat startswith] in H. destruct (ch_eqb c x) eqn:E.
  - cbn [andb] in H. injection H as <-. apply ch_eqb_eq in E. subst x.
    now exists [], s.
  - cbn [andb] in H. destruct (find_nat [c] s) as [j|]; [|discriminate].
    injection H as <-. destruct (IH j eq_refl) as (s1 & s2 & -> & L).
    exists (x :: s1), s2. simpl. now rewrite L.
Qed.

Lemma rfind_nat_char_nth c s :
  forall k, rfind_nat [c] s = Some k ->
    exists s1 s2, s = s1 ++ c :: s2 /\ List.length s1 = k.
Proof.
  induction s as [|x s IH]; intros k H; [discriminate H|].
  cbn [rfind_nat] in H. destruct (rfind_nat [c] s) as [j|].
  - injection H as <-. destruct (IH j eq_refl) as (s1 & s2 & -> & L).
    exists (x :: s1), s2. simpl. now rewrite L.
  - cbn [startswith] in H. destruct (ch_eqb c x) eqn:E; [|discriminate].
    cbn [andb] in H. injection H as <-. apply ch_eqb_eq in E. subst x.
    now exists [], s.
Qed.

Lemma slice_nat s lo hi :
  (lo <= List.length s)%nat -> (hi <= List.length s)%nat ->
  slice s (Z.of_nat lo) (Z.of_nat hi) = firstn (hi - lo) (skipn lo s).
Proof.
  intros L H. unfold slice, slice_index, len.
  destruct (Z.ltb_spec (Z.of_nat lo) 0); [lia|].
  destruct (Z.ltb_spec (Z.of_nat hi) 0); [lia|].
  rewrite !Z.min_l by lia. rewrite Nat2Z.id. f_equal. lia.
Qed.

Lemma app_same_length {A : Type} (s1 t1 x y : list A) :
  s1 ++ x = t1 ++ y -> List.length s1 = List.length t1 -> s1 = t1 /\ x = y.
Proof.
  revert t1. induction s1 as [|c s1 IH]; intros [|d t1] E L; try discriminate L.
  - now split.
  - cbn [app] in E. injection E as -> E. injection L as L.
    destruct (IH _ E L) as [-> ->]. now split.
Qed.

Lemma app_split_later {A : Type} (s1 s2 t1 t2 : list A) a b :
  s1 ++ a :: s2 = t1 ++ b :: t2 ->
  (List.length s1 < List.length t1)%nat ->
  exists mid, t1 = s1 ++ a :: mid /\ s2 = mid ++ b :: t2.
Proof.
  revert t1. induction s1 as [|c s1 IH]; intros [|d t1] E L;
    try (cbn in L; lia).
  - cbn [app] in E. injection E as -> E. now exists t1.
  - cbn [app] in E. injection E as -> E. cbn in L.
    destruct (IH t1 E) as (mid & -> & ->); [lia|]. now exists mid.
Qed.

Lemma slice_empty s a b :
  (slice_index (len s) b <= slice_index (len s) a)%Z -> slice s a b = [].
Proof.
  intros H. unfold slice.
  assert (Z.to_nat (slice_index (len s) b - slice_index (len s) a) = 0%nat)
    as -> by lia.
  reflexivity.
Qed.

(** The slice from the first [a] to the last [b], for two different
    characters. *)
Lemma slice_first_last a b s :
  a <> b ->
  let t := slice s (find [a] s) (rfind [b] s + 1) in
  t = [] \/ t = [b] \/ exists mid, t = a :: mid ++ [b].
Proof.
  intros Nab t. subst t. unfold find, rfind.
  destruct (find_nat [a] s) as [k|] eqn:F;
    destruct (rfind_nat [b] s) as [m|] eqn:R; cbn [index_or_minus1].
  - destruct (find_nat_char_nth _ _ F) as (s1 & s2 & E1 & L1).
    destruct (rfind_nat_char_nth _ _ R) as (t1 & t2 & E2 & L2).
    assert (k < List.length s)%nat
      by (rewrite E1, length_app; cbn [List.length]; lia).
    assert (m < List.length s)%nat
      by (rewrite E2, length_app; cbn [List.length]; lia).
    replace (Z.of_nat m + 1)%Z with (Z.of_nat (S m)) by lia.
    rewrite slice_nat by lia.
    destruct (Nat.lt_trichotomy m k) as [Lt|[Eq|Gt]].
    + left. replace (S m - k)%nat with 0%nat by lia. reflexivity.
    + exfalso. rewrite E1 in E2.
      destruct (app_same_length _ _ _ _ E2) as [_ E3]; [lia|]. congruence.
    + right. right. rewrite E1 in E2.
      destruct (app_split_later _ _ _ _ _ _ E2) as (mid & Et & Es); [lia|].
      exists mid. rewrite E1, Es.
      rewrite skipn_app, skipn_all2, L1, Nat.sub_diag by lia. cbn [app skipn].
      assert (m = k + 1 + List.length mid)%nat as Lm
        by (rewrite <- L2, Et, length_app; cbn [List.length]; lia).
      replace (S m - k)%nat with (S (List.length mid + 1)) by lia.
      cbn [firstn]. f_equal. now rewrite firstn_app_2.
  - left. apply slice_empty. unfold slice_index, len.
    change (-1 + 1)%Z with 0%Z. cbn [Z.ltb Z.compare].
    destruct (Z.ltb_spec (Z.of_nat k) 0); lia.
  - destruct (rfind_nat_char_nth _ _ R) as (t1 & t2 & E2 & L2).
    assert (List.length s = m + 1 + List.length t2)%nat as Ls
      by (rewrite E2, length_app; cbn [List.length]; lia).
    assert (slice_index (len s) (-1) = Z.of_nat (m + List.length t2)) as Lo
      by (unfold slice_index, len; cbn [Z.ltb Z.compare]; lia).
    assert (slice_index (len s) (Z.of_nat m + 1) = Z.of_nat (m + 1)) as Hi
      by (unfold slice_index, len;
          destruct (Z.ltb_spec (Z.of_nat m + 1) 0); lia).
    destruct t2 as [|d t2].
    + right. left. unfold slice. rewrite Lo, Hi. cbn [List.length].
      replace (Z.to_nat (Z.of_nat (m + 1) - Z.of_nat (m + 0))) with 1%nat by lia.
      rewrite Nat2Z.id, Nat.add_0_r, E2.
      rewrite skipn_app, skipn_all2, L2, Nat.sub_diag by lia.
      reflexivity.
    + left. apply slice_empty. rewrite Lo, Hi. cbn [List.length]. lia.
  - left. apply slice_empty. unfold slice_index, len.
    change (-1 + 1)%Z with 0%Z. cbn [Z.ltb Z.compare]. lia.
Qed.

(** X13: whatever the response, the string [create_chunks] hands to the
    parser is empty, or the single character of a right bracket, or starts
    with a left bracket and ends with a right one. *)
Theorem extract_json_shape response :
  extract_json response = [] \/
  extract_json response = rbracket \/
  bracketed (extract_json response) = true.
Proof.
  unfold extract_json.
  match goal with |- context [replace json_tag [] ?x] =>
    generalize (replace json_tag [] x) end.
  intros s.
  assert (lbracket_char <> rbracket_char) as Nab by discriminate.
  destruct (@slice_first_last lbracket_char rbracket_char s Nab)
    as [E|[E|[mid E]]]; cbv zeta in E;
    change [lbracket_char] with lbracket in E;
    change [rbracket_char] with rbracket in E; rewrite E; auto.
  right. right. cbn [bracketed]. rewrite ch_eqb_refl, rev_app_distr.
  cbn [rev app]. apply ch_eqb_refl.
Qed.

(** The last two steps of [extract_json] on an array text between a text
    without left bracket and a text without right bracket. *)
Lemma truncate_around x arr y :
  lacks lbracket_char x = true ->
  lacks rbracket_char y = true ->
  bracketed arr = true ->
  contains json_tag arr = false ->
  let s := replace json_tag [] (x ++ arr ++ y) in
  slice s (find lbracket s) (rfind rbracket s + 1) = arr.
Proof.
  intros Lx Ly B J. destruct (bracketed_inv arr B) as [mid ->].
  set (A := lbracket_char :: mid ++ [rbracket_char]) in *.
  assert (replace json_tag [] (x ++ A ++ y)
          = replace json_tag [] x ++ A ++ replace json_tag [] y) as E.
  { unfold replace, A. cbn [app].
    rewrite replace_aux_stop by (reflexivity || lia). f_equal.
    change (lbracket_char :: (mid ++ [rbracket_char]) ++ y)
      with ((lbracket_char :: mid ++ [rbracket_char]) ++ y).
    apply replace_aux_nowhere.
    apply (nowhere_extend json_tag (lbracket_char :: mid) rbracket_char);
      [reflexivity|]. now apply contains_false_nowhere. }
  cbv zeta. rewrite E. apply bracket_slice; now apply lacks_replace.
Qed.

(** X14: a response without fence in which the array text stands after prose
    without left bracket and before prose without right bracket goes to the
    parser as the array text alone, provided the array text does not hold the
    tag [json] with a line feed. *)
Theorem extract_json_unfenced before arr after :
  contains fence (before ++ arr ++ after) = false ->
  lacks lbracket_char before = true ->
  lacks rbracket_char after = true ->
  bracketed arr = true ->
  contains json_tag arr = false ->
  extract_json (before ++ arr ++ after) = arr.
Proof.
  intros F Lb La B J. unfold extract_json.
  destruct (bracketed_inv arr B) as [mid E]. 
  assert (strip (before ++ arr ++ after) = lstrip before ++ arr ++ rstrip after) as S.
  { rewrite E.
    transitivity (strip (before ++ lbracket_char :: mid ++ rbracket_char :: after)).
    - f_equal. cbn [app]. now rewrite <- app_assoc.
    - rewrite strip_around by reflexivity. cbn [app]. now rewrite <- app_assoc. }
  rewrite S.
  assert (contains fence (lstrip before ++ arr ++ rstrip after) = false) as ->.
  { destruct (contains fence (lstrip before ++ arr ++ rstrip after)) eqn:C;
      [|reflexivity].
    rewrite <- S in C. apply SegmentMore.contains_strip in C. congruence. }
  apply truncate_around; auto using lacks_lstrip, lacks_rstrip.
Qed.

End ExtractMore.

(** ** Character profiles *)

Module ProfileFacts.

Import Json DataPreprocessor MoreSpec CleanFacts.

Definition description_key : str := u "description".
Definition quotes_key : str := u "quotes".
Definition metadata_key : str := u "metadata".
Definition name_key : str := u "name".

Lemma str_eqb_eq a b : str_eqb a b = true <-> a = b.
Proof.
  revert b. induction a as [|x a IH]; intros [|y b]; simpl; split;
    try discriminate; try reflexivity.
  - intros H. apply andb_true_iff in H as [E H]. apply ch_eqb_eq in E.
    apply IH in H. now subst.
  - intros [= -> ->]. rewrite ch_eqb_refl. now apply IH.
Qed.

Lemma str_eqb_refl a : str_eqb a a = true.
Proof. now apply str_eqb_eq. Qed.

Lemma str_eqb_neq a b : a <> b -> str_eqb a b = false.
Proof.
  intros N. destruct (str_eqb a b) eqn:E; [|reflexivity].
  apply str_eqb_eq in E. contradiction.
Qed.

(** *** Reading after writing *)

Lemma dict_get_set_same k v d : dict_get k (dict_set k v d) = Some v.
Proof.
  induction d as [|[k' v'] d IH]; simpl.
  - now rewrite str_eqb_refl.
  - destruct (str_eqb k k') eqn:E; simpl; rewrite ?str_eqb_refl, ?E; auto.
Qed.

Lemma dict_get_set_other k k' v d :
  str_eqb k k' = false -> dict_get k (dict_set k' v d) = dict_get k d.
Proof.
  intros N. induction d as [|[k0 v0] d IH]; simpl.
  - now rewrite N.
  - destruct (str_eqb k' k0) eqn:E; simpl.
    + apply str_eqb_eq in E. subst k0. now rewrite N.
    + destruct (str_eqb k k0); auto.
Qed.

(** Writing the value a key already has changes nothing. *)
Lemma dict_set_same k v d : dict_get k d = Some v -> dict_set k v d = d.
Proof.
  induction d as [|[k' v'] d IH]; simpl; [discriminate|].
  destruct (str_eqb k k') eqn:E.
  - intros [= ->]. apply str_eqb_eq in E. now subst.
  - intros H. now rewrite IH.
Qed.

Lemma dict_has_set k k' v d :
  dict_has k (dict_set k' v d) = str_eqb k k' || dict_has k d.
Proof.
  unfold dict_has. destruct (str_eqb k k') eqn:E.
  - apply str_eqb_eq in E. subst. now rewrite dict_get_set_same.
  - now rewrite dict_get_set_other.
Qed.

(** Writing keeps the keys in place; a new key goes to the end. *)
Lemma dict_set_keys k v d :
  List.map fst (dict_set k v d)
  = if dict_has k d then List.map fst d else List.map fst d ++ [k].
Proof.
  unfold dict_has. induction d as [|[k' v'] d IH]; simpl; [reflexivity|].
  destruct (str_eqb k k') eqn:E; simpl.
  - apply str_eqb_eq in E. now subst.
  - rewrite IH. now destruct (dict_get k d).
Qed.

(** *** The steps of [process_profile] *)

Lemma clean_all_inv l :
  forall cs, clean_all l = Return cs ->
    exists ss, l = List.map PyStr ss /\
               cs = List.map (fun s => PyStr (_clean_text s)) ss.
Proof.
  induction l as [|q l IH]; intros cs H.
  - injection H as <-. now exists [].
  - cbn [clean_all] in H. destruct q; cbn [clean_value bind] in H; try discriminate.
    destruct (clean_all l) as [others|]; cbn [bind] in H; [|discriminate].
    injection H as <-. destruct (IH _ eq_refl) as (ss & -> & ->).
    now exists (s :: ss).
Qed.

Lemma clean_all_strings ss :
  clean_all (List.map PyStr ss)
  = Return (List.map (fun s => PyStr (_clean_text s)) ss).
Proof.
  induction ss as [|s ss IH]; [reflexivity|].
  cbn [List.map clean_all clean_value bind]. now rewrite IH.
Qed.

Lemma check_required_dict d :
  check_required required_fields (PyDict d)
  = match List.find (fun f => negb (dict_has f d)) required_fields with
    | Some f => Raise (ValueError (missing_field_message f))
    | None => Return tt
    end.
Proof.
  unfold required_fields. cbn [check_required py_in bind List.find].
  repeat match goal with
         | |- context [dict_has ?k d] => destruct (dict_has k d); cbn [negb]
         end; reflexivity.
Qed.

(** What [process_profile] returns for a dict [d] whose description is the
    string [s] and whose quotes, if any, are the strings [quotes]. *)
Definition processed (d : list (str * value)) (s : str)
    (quotes : option (list str)) (now : str) : list (str * value) :=
  let d1 := dict_set description_key (PyStr (_clean_text s)) d in
  let d2 :=
    match quotes with
    | Some ss =>
        dict_set quotes_key
          (PyList (List.map (fun q => PyStr (_clean_text q)) ss)) d1
    | None => d1
    end in
  dict_set metadata_key (profile_metadata now) d2.

(** The quotes of [d] can be cleaned: there are none, or what iterating over
    them gives is the strings [quotes]. *)
Definition quotes_are (d : list (str * value)) (quotes : option (list str)) : Prop :=
  match quotes with
  | Some ss =>
      exists q, dict_get quotes_key d = Some q /\
                iter_values q = Return (List.map PyStr ss)
  | None => dict_get quotes_key d = None
  end.

Lemma process_profile_runs d s quotes now :
  List.find (fun f => negb (dict_has f d)) required_fields = None ->
  dict_get description_key d = Some (PyStr s) ->
  quotes_are d quotes ->
  process_profile (Return (PyDict d)) now = Return (PyDict (processed d s quotes now)).
Proof.
  intros R D Q. unfold process_profile. cbn [bind].
  rewrite check_required_dict, R. cbn [bind subscript].
  change (u "description") with description_key. rewrite D.
  cbn [bind clean_value store py_in].
  change (u "quotes") with quotes_key. change (u "metadata") with metadata_key.
  rewrite dict_has_set. change (str_eqb quotes_key description_key) with false.
  cbn [orb]. unfold dict_has.
  assert (dict_has name_key d = true) as N.
  { unfold required_fields in R. cbn [List.find] in R.
    change (u "name") with name_key in R.
    destruct (dict_has name_key d); [reflexivity|discriminate R]. }
  assert (forall d0, dict_has name_key d0 = true ->
            exists x,
              subscript (PyDict (dict_set metadata_key (profile_metadata now) d0))
                (u "name") = Return x) as Sub.
  { intros d0 H. cbn [subscript]. change (u "name") with name_key.
    rewrite dict_get_set_other by reflexivity.
    unfold dict_has in H. destruct (dict_get name_key d0); [eauto|discriminate]. }
  destruct quotes as [ss|]; cbn [quotes_are] in Q.
  - destruct Q as (q & Hq & Hi). rewrite Hq.
    cbn [bind subscript]. rewrite dict_get_set_other by reflexivity. rewrite Hq.
    cbn [bind]. rewrite Hi. cbn [bind]. rewrite clean_all_strings.
    cbn [bind store].
    destruct (Sub (dict_set quotes_key
                     (PyList (List.map (fun s0 => PyStr (_clean_text s0)) ss))
                     (dict_set description_key (PyStr (_clean_text s)) d)))
      as [x E].
    { rewrite !dict_has_set, N. now rewrite !orb_true_r. }
    rewrite E. reflexivity.
  - rewrite Q. cbn [bind store].
    destruct (Sub (dict_set description_key (PyStr (_clean_text s)) d))
      as [x E].
    { rewrite !dict_has_set, N. now rewrite !orb_true_r. }
    rewrite E. reflexivity.
Qed.

Lemma process_profile_inv file now out :
  process_profile file now = Return out ->
  exists d s quotes,
    file = Return (PyDict d) /\
    List.find (fun f => negb (dict_has f d)) required_fields = None /\
    dict_get description_key d = Some (PyStr s) /\
    quotes_are d quotes /\
    out = PyDict (processed d s quotes now).
Proof.
  unfold process_profile. intros H.
  destruct file as [v|e]; cbn [bind try_except] in H; [|discriminate].
  match type of H with
  | try_except ?body _ = _ =>
      assert (body = Return out) as B
        by (destruct body; cbn [try_except] in H; congruence)
  end.
  clear H.
  destruct (check_required required_fields v) as [[]|e] eqn:C;
    cbn [bind] in B; [|discriminate].
  destruct (subscript v (u "description")) as [desc|e] eqn:S;
    cbn [bind] in B; [|discriminate].
  destruct v as [ | | | | | |d]; try discriminate S.
  rewrite check_required_dict in C.
  destruct (List.find (fun f => negb (dict_has f d)) required_fields) eqn:R;
    [discriminate|].
  cbn [subscript] in S. change (u "description") with description_key in S.
  destruct (dict_get description_key d) as [x|] eqn:D; [|discriminate].
  injection S as <-.
  destruct x as [ | | | |s| | ]; cbn [clean_value bind] in B; try discriminate.
  exists d, s.
  assert (exists quotes, quotes_are d quotes) as [quotes Q].
  { cbn [store bind py_in] in B. change (u "quotes") with quotes_key in B.
    rewrite dict_has_set in B.
    change (str_eqb quotes_key description_key) with false in B.
    cbn [orb] in B. unfold dict_has in B.
    destruct (dict_get quotes_key d) as [q|] eqn:Hq; [|now exists None].
    cbn [bind subscript] in B. rewrite dict_get_set_other in B by reflexivity.
    rewrite Hq in B. cbn [bind] in B.
    destruct (iter_values q) as [elems|] eqn:Hi; cbn [bind] in B; [|discriminate].
    destruct (clean_all elems) as [cs|] eqn:Hc; cbn [bind] in B; [|discriminate].
    destruct (clean_all_inv _ Hc) as (ss & -> & _).
    exists (Some ss), q. auto. }
  exists quotes. repeat split; auto.
  pose proof (@process_profile_runs d s quotes now R D Q) as P.
  unfold process_profile in P. cbn [bind try_except] in P.
  rewrite check_required_dict, R in P. cbn [bind subscript] in P.
  change (u "description") with description_key in P. rewrite D in P.
  cbn [bind clean_value] in P.
  match type of P with
  | try_except ?body _ = _ =>
      assert (body = Return (PyDict (processed d s quotes now))) as B'
        by (destruct body; cbn [try_except] in P; congruence)
  end.
  change (u "description") with description_key in B.
  rewrite B in B'. now injection B'.
Qed.

Ltac eval_keys :=
  repeat match goal with
         | |- context [str_eqb ?a ?b] =>
             let v := eval vm_compute in (str_eqb a b) in
             change (str_eqb a b) with v
         end.

Lemma find_none_intro {A : Type} (f : A -> bool) l :
  (forall x, In x l -> f x = false) -> List.find f l = None.
Proof.
  induction l as [|a l IH]; intros H; [reflexivity|].
  cbn [List.find]. rewrite (H a (or_introl eq_refl)). apply IH.
  intros x Hx. apply H. now right.
Qed.

Lemma processed_get_description d s quotes now :
  dict_get description_key (processed d s quotes now) = Some (PyStr (_clean_text s)).
Proof.
  unfold processed. rewrite dict_get_set_other by reflexivity.
  destruct quotes; [rewrite dict_get_set_other by reflexivity|];
    apply dict_get_set_same.
Qed.

Lemma processed_get_quotes d s quotes now :
  quotes_are d quotes ->
  dict_get quotes_key (processed d s quotes now)
  = option_map (fun ss => PyList (List.map (fun q => PyStr (_clean_text q)) ss)) quotes.
Proof.
  intros Q. unfold processed. rewrite dict_get_set_other by reflexivity.
  destruct quotes as [ss|]; cbn [option_map quotes_are] in *.
  - apply dict_get_set_same.
  - now rewrite dict_get_set_other by reflexivity.
Qed.

Lemma processed_get_other d s quotes now k :
  k <> description_key -> k <> quotes_key -> k <> metadata_key ->
  dict_get k (processed d s quotes now) = dict_get k d.
Proof.
  intros N1 N2 N3. unfold processed.
  rewrite dict_get_set_other by now apply str_eqb_neq.
  destruct quotes; [rewrite dict_get_set_other by now apply str_eqb_neq|];
    now rewrite dict_get_set_other by now apply str_eqb_neq.
Qed.

Lemma processed_has d s quotes now k :
  dict_has k d = true -> dict_has k (processed d s quotes now) = true.
Proof.
  intros H. unfold processed. rewrite dict_has_set.
  destruct quotes; rewrite !dict_has_set, H; now rewrite !orb_true_r.
Qed.

(** X15: when a required field is missing from the profile, [process_profile]
    raises [ValueError] with the name of the first missing one, in the order
    name, description, traits, relationships. *)
Theorem process_profile_missing_field d now field :
  List.find (fun f => negb (dict_has f d)) required_fields = Some field ->
  process_profile (Return (PyDict d)) now
  = Raise (ValueError (missing_field_message field)).
Proof.
  intros H. unfold process_profile. cbn [bind].
  rewrite check_required_dict, H. reflexivity.
Qed.

(** X16: when [process_profile] returns, the file held a dict with a string
    description; the dict returned has the description cleaned and the
    metadata of this run, every key other than description, quotes and
    metadata keeps its value, and the keys keep their order, with [metadata]
    added at the end when it was not there. *)
Theorem process_profile_result file now out :
  process_profile file now = Return out ->
  exists d s d',
    file = Return (PyDict d) /\ out = PyDict d' /\
    dict_get description_key d = Some (PyStr s) /\
    dict_get description_key d' = Some (PyStr (_clean_text s)) /\
    dict_get metadata_key d' = Some (profile_metadata now) /\
    (forall k, k <> description_key -> k <> quotes_key -> k <> metadata_key ->
       dict_get k d' = dict_get k d) /\
    List.map fst d'
    = (if dict_has metadata_key d then List.map fst d
       else List.map fst d ++ [metadata_key]).
Proof.
  intros H. destruct (process_profile_inv _ _ H) as (d & s & quotes & -> & R & D & Q & ->).
  exists d, s, (processed d s quotes now).
  repeat split; auto using processed_get_description.
  - unfold processed. apply dict_get_set_same.
  - intros k. apply processed_get_other.
  - unfold processed.
    assert (dict_has description_key d = true) as Hd
      by (unfold dict_has; now rewrite D).
    destruct quotes as [ss|]; cbn [quotes_are] in Q.
    + destruct Q as (q & Hq & _).
      assert (dict_has quotes_key d = true) as Hqh
        by (unfold dict_has; now rewrite Hq).
      rewrite !dict_set_keys, !dict_has_set, Hd, Hqh. eval_keys.
      cbn [orb]. reflexivity.
    + rewrite !dict_set_keys, !dict_has_set, Hd. eval_keys.
      cbn [orb]. reflexivity.
Qed.

(** X17: when [process_profile] returns, the quotes of the profile, if it has
    any, were all strings and come back cleaned one by one, as many as
    before and in the same order; a profile without quotes gets none. *)
Theorem process_profile_quotes d now d' :
  process_profile (Return (PyDict d)) now = Return (PyDict d') ->
  match dict_get quotes_key d with
  | Some q =>
      exists ss,
        iter_values q = Return (List.map PyStr ss) /\
        dict_get quotes_key d'
        = Some (PyList (List.map (fun s => PyStr (_clean_text s)) ss))
  | None => dict_get quotes_key d' = None
  end.
Proof.
  intros H.
  destruct (process_profile_inv _ _ H) as (d0 & s & quotes & E & R & D & Q & E').
  injection E as <-. injection E' as ->.
  rewrite (@processed_get_quotes d s quotes now Q).
  destruct quotes as [ss|]; cbn [quotes_are option_map] in *.
  - destruct Q as (q & -> & Hi). now exists ss.
  - now rewrite Q.
Qed.

(** X18: processing what [process_profile] returned, at the same date, gives
    it back unchanged. *)
Theorem process_profile_again file now out :
  process_profile file now = Return out ->
  process_profile (Return out) now = Return out.
Proof.
  intros H. destruct (process_profile_inv _ _ H) as (d & s & quotes & _ & R & D & Q & ->).
  set (d3 := processed d s quotes now).
  assert (List.find (fun f => negb (dict_has f d3)) required_fields = None) as R3.
  { apply find_none_intro. intros f Hf.
    pose proof (find_none _ _ R f Hf) as N. cbn beta in N.
    apply negb_false_iff in N. unfold d3. now rewrite processed_has. }
  pose proof (processed_get_description d s quotes now) as D3. fold d3 in D3.
  pose proof (@processed_get_quotes d s quotes now Q) as Q3. fold d3 in Q3.
  assert (quotes_are d3 (option_map (List.map _clean_text) quotes)) as QA.
  { destruct quotes as [ss|]; cbn [quotes_are option_map] in *; [|exact Q3].
    eexists. split; [exact Q3|]. cbn [iter_values]. now rewrite map_map. }
  rewrite (@process_profile_runs d3 _ _ now R3 D3 QA). do 2 f_equal.
  unfold processed. rewrite CleanMore.clean_text_twice.
  rewrite (dict_set_same _ _ D3).
  assert (match option_map (List.map _clean_text) quotes with
          | Some ss =>
              dict_set quotes_key
                (PyList (List.map (fun q => PyStr (_clean_text q)) ss)) d3
          | None => d3
          end = d3) as ->.
  { destruct quotes as [ss|]; cbn [option_map] in *; [|reflexivity].
    apply dict_set_same. rewrite Q3. do 2 f_equal.
    rewrite map_map. apply map_ext. intros a.
    now rewrite CleanMore.clean_text_twice. }
  apply dict_set_same. unfold d3, processed. apply dict_get_set_same.
Qed.

End ProfileFacts.

(** ** Wiki pages *)

Module WikiFacts.

Import DataPreprocessor MoreSpec ProfileFacts.

Lemma sections_get_set_same k v d : sections_get k (sections_set k v d) = Some v.
Proof.
  induction d as [|[k' v'] d IH]; simpl.
  - now rewrite str_eqb_refl.
  - destruct (str_eqb k k') eqn:E; simpl; rewrite ?str_eqb_refl, ?E; auto.
Qed.

Lemma sections_get_set_other k k' v d :
  str_eqb k k' = false -> sections_get k (sections_set k' v d) = sections_get k d.
Proof.
  intros N. induction d as [|[k0 v0] d IH]; simpl.
  - now rewrite N.
  - destruct (str_eqb k' k0) eqn:E; simpl.
    + apply str_eqb_eq in E. subst k0. now rewrite N.
    + destruct (str_eqb k k0); auto.
Qed.

(** Appending to a section that is there succeeds and touches that section
    only. *)
Lemma sections_append_get n x d :
  sections_get n d <> None ->
  exists d',
    sections_append n x d = Return d' /\
    forall k,
      sections_get k d'
      = if str_eqb k n then option_map (fun l => l ++ [x]) (sections_get k d)
        else sections_get k d.
Proof.
  induction d as [|[k' v] d IH]; intros H; [now contradiction H|].
  cbn [sections_append sections_get] in *. destruct (str_eqb n k') eqn:E.
  - apply str_eqb_eq in E. subst k'. eexists. split; [reflexivity|].
    intros k. cbn [sections_get]. now destruct (str_eqb k n).
  - destruct (IH H) as (d' & -> & G). eexists. split; [reflexivity|].
    intros k. cbn [sections_get]. destruct (str_eqb k k') eqn:K; [|apply G].
    apply str_eqb_eq in K. subst k'.
    destruct (str_eqb k n) eqn:K'; [|reflexivity].
    apply str_eqb_eq in K'. subst k. rewrite str_eqb_refl in E. discriminate.
Qed.

(** The section that paragraphs go to. *)
Definition active (k : str) (current_section : option str) : bool :=
  match current_section with
  | Some (c :: cs) => str_eqb k (c :: cs)
  | _ => false
  end.

(** The loop never lacks the section it appends to, and a section ends up
    with the paragraphs that follow its last heading. *)
Lemma collect_sections_get elements :
  forall sections current_section,
    (forall c cs, current_section = Some (c :: cs) ->
                  sections_get (c :: cs) sections <> None) ->
    exists sections',
      collect_sections elements sections current_section = Return sections' /\
      forall k,
        sections_get k sections'
        = match section_of k elements with
          | Some b => Some b
          | None =>
              if active k current_section
              then option_map (fun l => l ++ paragraphs_until_heading elements)
                     (sections_get k sections)
              else sections_get k sections
          end.
Proof.
  induction elements as [|e rest IH]; intros sections cur Inv.
  - exists sections. split; [reflexivity|]. intros k. cbn.
    destruct (active k cur); [|reflexivity].
    destruct (sections_get k sections); cbn; [now rewrite app_nil_r|reflexivity].
  - cbn [collect_sections section_of paragraphs_until_heading].
    destruct (Tag.name e).
    + (* a heading *)
      set (n := strip (Tag.get_text e)).
      destruct (IH (sections_set n [] sections) (Some n)) as (s' & -> & G).
      { intros c cs [= ->]. rewrite sections_get_set_same. discriminate. }
      exists s'. split; [reflexivity|]. intros k. rewrite G.
      destruct (section_of k rest); [reflexivity|].
      destruct (str_eqb k n) eqn:K.
      * apply str_eqb_eq in K. subst k. rewrite sections_get_set_same.
        destruct n; cbn [active]; [reflexivity|]. now rewrite str_eqb_refl.
      * rewrite sections_get_set_other by assumption.
        assert (active k (Some n) = false) as ->
          by (destruct n; [reflexivity|exact K]).
        destruct (active k cur); [|reflexivity].
        destruct (sections_get k sections); cbn; [now rewrite app_nil_r|reflexivity].
    + (* a paragraph *)
      destruct cur as [[|c cs]|].
      * destruct (IH sections (Some []) Inv) as (s' & -> & G).
        exists s'. split; [reflexivity|]. intros k. rewrite G.
        now destruct (section_of k rest).
      * destruct (_clean_text (Tag.get_text e)) as [|t0 t] eqn:T.
        -- destruct (IH sections (Some (c :: cs)) Inv) as (s' & -> & G).
           exists s'. split; [reflexivity|]. intros k. rewrite G.
           now destruct (section_of k rest).
        -- destruct (sections_append_get (c :: cs) (t0 :: t) sections
                       (Inv c cs eq_refl)) as (s1 & -> & G1).
           cbn [bind].
           destruct (IH s1 (Some (c :: cs))) as (s' & -> & G).
           { intros c' cs' [= -> ->]. rewrite G1, str_eqb_refl.
             specialize (Inv c' cs' eq_refl).
             destruct (sections_get (c' :: cs') sections); [discriminate|congruence]. }
           exists s'. split; [reflexivity|]. intros k. rewrite G.
           destruct (section_of k rest); [reflexivity|].
           cbn [active]. rewrite G1. destruct (str_eqb k (c :: cs)); [|reflexivity].
           destruct (sections_get k sections); cbn; [|reflexivity].
           now rewrite <- app_assoc.
      * destruct (IH sections None Inv) as (s' & -> & G).
        exists s'. split; [reflexivity|]. intros k. rewrite G.
        now destruct (section_of k rest).
Qed.

Lemma paragraphs_until_heading_clean elements :
  Forall (fun t => t <> [] /\ tidy t = true) (paragraphs_until_heading elements).
Proof.
  induction elements as [|e rest IH]; cbn [paragraphs_until_heading]; [constructor|].
  destruct (Tag.name e); [constructor|].
  destruct (_clean_text (Tag.get_text e)) as [|t0 t] eqn:T; [exact IH|].
  constructor; [|exact IH]. split; [discriminate|].
  rewrite <- T. apply CleanMore.clean_text_is_tidy_aux.
Qed.

Lemma section_of_clean k elements ps :
  section_of k elements = Some ps ->
  strip k = k /\ Forall (fun t => t <> [] /\ tidy t = true) ps.
Proof.
  induction elements as [|e rest IH]; cbn [section_of]; [discriminate|].
  destruct (section_of k rest); [exact IH|].
  destruct (Tag.name e); [|discriminate].
  destruct (str_eqb k (strip (Tag.get_text e))) eqn:K; [|discriminate].
  apply str_eqb_eq in K. intros [= <-]. split.
  - rewrite K. apply ChunkerMore.strip_idem.
  - destruct k; [constructor|apply paragraphs_until_heading_clean].
Qed.

(** X19: on a page that has its content, its heading and its footer,
    [process_wiki] returns, and the section of title [k] holds the cleaned,
    non-empty paragraphs that follow the last heading of that title up to
    the next heading: paragraphs before the first heading are dropped, a
    heading that comes again starts its section afresh, and a heading
    without text collects nothing. *)
Theorem process_wiki_sections soup url elements title last_modified :
  Soup.content soup = Some elements ->
  Soup.first_heading soup = Some title ->
  Soup.last_modified soup = Some last_modified ->
  exists sections,
    process_wiki (Return soup) url
    = Return (WikiData.mk title url sections last_modified (u "wiki")) /\
    forall k, sections_get k sections = section_of k elements.
Proof.
  intros C T L.
  assert (forall c cs, @None str = Some (c :: cs) ->
            sections_get (c :: cs) [] <> None) as Inv by discriminate.
  destruct (@collect_sections_get elements [] (@None str) Inv) as (s' & E & G).
  change (collect_sections elements [] (@None str) = Return s') in E.
  exists s'. split.
  - unfold process_wiki. cbn [bind]. rewrite C. cbn [bind]. rewrite E.
    cbn [bind]. rewrite T, L. reflexivity.
  - intros k. rewrite G. now destruct (section_of k elements).
Qed.

(** X20: whatever the page, every section [process_wiki] returns has a
    trimmed title, and every paragraph stored is tidy and not empty. *)
Theorem process_wiki_paragraphs_clean page url data k ps :
  process_wiki page url = Return data ->
  sections_get k (WikiData.sections data) = Some ps ->
  strip k = k /\ Forall (fun t => t <> [] /\ tidy t = true) ps.
Proof.
  unfold process_wiki. intros H S.
  destruct page as [soup|]; cbn [bind try_except] in H; [|discriminate].
  destruct (Soup.content soup) as [elements|]; cbn [bind try_except] in H;
    [|discriminate].
  assert (forall c cs, @None str = Some (c :: cs) ->
            sections_get (c :: cs) [] <> None) as Inv by discriminate.
  destruct (@collect_sections_get elements [] (@None str) Inv) as (s' & E & G).
  change (collect_sections elements [] (@None str) = Return s') in E.
  rewrite E in H. cbn [bind] in H.
  destruct (Soup.first_heading soup); cbn [attribute bind try_except] in H;
    [|discriminate].
  destruct (Soup.last_modified soup); cbn [attribute bind try_except] in H;
    [|discriminate].
  injection H as <-. cbn [WikiData.sections] in S.
  rewrite G in S. apply (section_of_clean k elements).
  now destruct (section_of k elements).
Qed.

End WikiFacts.

(** ** Segmenting a novel that is laid out in chapters *)

Module LayoutFacts.

Import Re DataPreprocessor Aux MoreSpec CleanFacts StringFacts ExtractFacts ExtractMore.

Definition word7 : str := u "Chapter".
Definition word8 : str := u "Chapter ".

(** The cursor after the characters of [x]. *)
Definition advance_all (x : str) (st : cursor) : cursor :=
  fold_left (fun s c => advance c s) x st.

Lemma advance_all_fields x :
  forall st,
    pos (advance_all x st) = (pos st + List.length x)%nat /\
    g_start (advance_all x st) = g_start st /\
    g_end (advance_all x st) = g_end st.
Proof.
  induction x as [|c x IH]; intros st; cbn.
  - repeat split; lia.
  - destruct (IH (advance c st)) as (P & S & E). fold (advance_all x (advance c st)).
    rewrite P, S, E. cbn. repeat split; lia.
Qed.

(** A literal at the head of the text is passed over. *)
Lemma run_lit_ok w re r :
  forall st, run (lit w ++ re) st (w ++ r) = run re (advance_all w st) r.
Proof.
  induction w as [|a w IH]; intros st; [reflexivity|].
  cbn [lit List.map app run]. rewrite ch_eqb_refl. apply IH.
Qed.

(** A pattern that starts with a literal fails where the literal does not
    stand. *)
Lemma run_lit_fail w re s :
  forall st, startswith w s = false -> run (lit w ++ re) st s = None.
Proof.
  revert s. induction w as [|a w IH]; intros s st H; [destruct s; discriminate H|].
  cbn [lit List.map app run]. destruct s as [|c s]; [reflexivity|].
  cbn [startswith] in H. destruct (ch_eqb a c); [|reflexivity].
  cbn [andb] in H. now apply IH.
Qed.

(** A greedy repetition runs through the characters of its class when what
    follows succeeds after them. *)
Lemma star_greedy_through p k x y r :
  forallb p x = true ->
  forall st,
    star p true k (advance_all x st) y = Some r ->
    star p true k st (x ++ y) = Some r.
Proof.
  induction x as [|c x IH]; intros F st H; [exact H|].
  cbn [forallb] in F. apply andb_true_iff in F as [Fc F].
  cbn [app star]. rewrite Fc. now rewrite (IH F (advance c st) H).
Qed.

(** A repetition stops at a character that is not of its class. *)
Lemma star_stop p greedy k st c y :
  p c = false -> star p greedy k st (c :: y) = k st (c :: y).
Proof. intros H. cbn [star]. now rewrite H. Qed.

Definition close_group : cursor -> str -> option cursor :=
  run [GroupClose; One (ch_eqb nl)].

(** The lazy repetition of the title runs to the end of the line. *)
Lemma star_lazy_line x y :
  forallb not_newline x = true ->
  forall st,
    star not_newline false close_group st (x ++ y)
    = star not_newline false close_group (advance_all x st) y.
Proof.
  induction x as [|c x IH]; intros F st; [reflexivity|].
  cbn [forallb] in F. apply andb_true_iff in F as [Fc F].
  cbn [app star]. rewrite Fc.
  assert (close_group st (c :: x ++ y) = None) as ->.
  { unfold close_group. cbn [run]. unfold not_newline in Fc.
    apply negb_true_iff in Fc. unfold ch_eqb in *. rewrite N.eqb_sym, Fc.
    reflexivity. }
  apply IH, F.
Qed.

Lemma sep_class_not_decimal c : sep_class c = true -> isdecimal c = false.
Proof.
  unfold sep_class, isspace, ch_eqb, colon. intros H.
  repeat (apply orb_true_iff in H; destruct H as [H|H]);
    repeat (apply andb_true_iff in H; destruct H as [? H]);
    rewrite ?N.leb_le, ?N.eqb_eq in *; try (subst c; reflexivity).
  - assert (c = 9 \/ c = 10 \/ c = 11 \/ c = 12 \/ c = 13)%N as E by lia.
    repeat (destruct E as [->|E]; [reflexivity|]). now subst.
  - assert (c = 28 \/ c = 29 \/ c = 30 \/ c = 31 \/ c = 32)%N as E by lia.
    repeat (destruct E as [->|E]; [reflexivity|]). now subst.
  - assert (c = 8192 \/ c = 8193 \/ c = 8194 \/ c = 8195 \/ c = 8196 \/ c = 8197
            \/ c = 8198 \/ c = 8199 \/ c = 8200 \/ c = 8201 \/ c = 8202)%N
      as E by lia.
    repeat (destruct E as [->|E]; [reflexivity|]). now subst.
Qed.

(** *** The heading of a piece is one match of the chapter pattern *)

Definition title_pattern : pattern :=
  [GroupOpen; Star not_newline false; GroupClose; One (ch_eqb nl)].

Lemma title_run ti rest st :
  forallb not_newline ti = true ->
  run title_pattern st (ti ++ nl :: rest)
  = Some (mkCursor (S (pos st + List.length ti)) (Some nl)
            (pos st) (pos st + List.length ti)).
Proof.
  intros F. unfold title_pattern. cbn [run].
  change (run [GroupClose; One (ch_eqb nl)]) with close_group.
  rewrite (star_lazy_line ti (nl :: rest) F).
  rewrite star_stop by reflexivity.
  unfold close_group. cbn [run]. rewrite ch_eqb_refl.
  destruct (advance_all_fields ti
              (mkCursor (pos st) (before st) (pos st) (g_end st)))
    as (P & S & _).
  cbn [pos g_start] in P, S. unfold advance. cbn [pos g_start g_end before].
  now rewrite P, S.
Qed.

Lemma run_chapter d ds sp t0 ti rest st :
  isdecimal d = true ->
  forallb isdecimal ds = true ->
  forallb sep_class sp = true ->
  sep_class t0 = false ->
  isdecimal t0 = false ->
  forallb not_newline (t0 :: ti) = true ->
  let g := (pos st + 8 + S (List.length ds) + List.length sp)%nat in
  run chapter st (word8 ++ (d :: ds) ++ sp ++ (t0 :: ti) ++ nl :: rest)
  = Some (mkCursor (S (g + S (List.length ti))) (Some nl)
            g (g + S (List.length ti))).
Proof.
  intros Hd Hds Hsp Ht0 Ht0' Hti g. unfold chapter, word8.
  rewrite run_lit_ok.
  change (run (?a :: ?re)) with (run (a :: re)).
  fold sep_class.
  change (Star (fun c => ch_eqb c colon || isspace c) true) with (Star sep_class true).
  cbn [app run]. rewrite Hd.
  change (run [GroupOpen; Star not_newline false; GroupClose; One (ch_eqb nl)])
    with (run title_pattern).
  apply star_greedy_through; [exact Hds|].
  set (st2 := advance_all ds _).
  assert (forall k y,
             star isdecimal true k st2 (sp ++ t0 :: y) = k st2 (sp ++ t0 :: y))
    as ->.
  { intros k y. destruct sp as [|c sp]; cbn [app]; apply star_stop; [exact Ht0'|].
    cbn [forallb] in Hsp. apply andb_true_iff in Hsp as [Hc _].
    now apply sep_class_not_decimal. }
  change (run (Star sep_class true :: title_pattern))
    with (star sep_class true (run title_pattern)).
  apply star_greedy_through; [exact Hsp|].
  rewrite star_stop by exact Ht0.
  pose proof (title_run (t0 :: ti) rest (advance_all sp st2) Hti) as T.
  cbn [app] in T. refine (eq_trans T _). clear T.
  destruct (advance_all_fields sp st2) as (P3 & _).
  destruct (advance_all_fields ds (advance d (advance_all (u "Chapter ") st)))
    as (P2 & _).
  destruct (advance_all_fields (u "Chapter ") st) as (P1 & _).
  fold st2 in P2. rewrite P3, P2. cbn [advance pos]. rewrite P1.
  change (List.length (u "Chapter ")) with 8%nat. cbn [List.length].
  subst g. f_equal. f_equal; lia.
Qed.

Lemma well_laid_inv pc :
  well_laid pc = true ->
  exists d ds t0 ti,
    Piece.digits pc = d :: ds /\ Piece.title pc = t0 :: ti /\
    isdecimal d = true /\ forallb isdecimal ds = true /\
    forallb sep_class (Piece.sep pc) = true /\
    sep_class t0 = false /\ isdecimal t0 = false /\
    forallb not_newline (t0 :: ti) = true /\
    contains word7 (Piece.body pc) = false.
Proof.
  unfold well_laid. intros W.
  apply andb_true_iff in W as [W E]. apply andb_true_iff in W as [W D].
  apply andb_true_iff in W as [W C]. apply andb_true_iff in W as [A B].
  destruct (Piece.digits pc) as [|d ds]; [discriminate|].
  destruct (Piece.title pc) as [|t0 ti]; [discriminate|].
  cbn [forallb] in A. apply andb_true_iff in A as [Hd Hds].
  apply andb_true_iff in C as [C1 C2].
  apply negb_true_iff in C1, C2, E.
  exists d, ds, t0, ti. repeat split; assumption.
Qed.

Definition group_start (p : nat) (pc : Piece.t) : nat :=
  (p + 8 + List.length (Piece.digits pc) + List.length (Piece.sep pc))%nat.

(** The match the chapter pattern has at the heading of [pc] that starts at
    position [p]. *)
Definition heading_match (p : nat) (pc : Piece.t) : rmatch :=
  mkMatch p (p + List.length (heading pc))
    (group_start p pc) (group_start p pc + List.length (Piece.title pc)).

Lemma heading_length pc :
  List.length (heading pc)
  = (8 + List.length (Piece.digits pc) + List.length (Piece.sep pc)
     + List.length (Piece.title pc) + 1)%nat.
Proof.
  unfold heading. rewrite !length_app.
  change (List.length (u "Chapter ")) with 8%nat. cbn [List.length]. lia.
Qed.

Lemma match_heading pc rest p b :
  well_laid pc = true ->
  match_at chapter p b (heading pc ++ rest) = Some (heading_match p pc).
Proof.
  intros W. unfold heading_match, group_start. rewrite heading_length.
  destruct (well_laid_inv pc W)
    as (d & ds & t0 & ti & Ed & Et & Hd & Hds & Hsp & Ht0 & Ht0' & Hti & _).
  unfold heading. rewrite Ed, Et.
  assert ((u "Chapter " ++ (d :: ds) ++ Piece.sep pc ++ (t0 :: ti) ++ [nl]) ++ rest
          = word8 ++ (d :: ds) ++ Piece.sep pc ++ (t0 :: ti) ++ nl :: rest) as ->.
  { unfold word8. now rewrite <- !app_assoc. }
  unfold match_at.
  rewrite (@run_chapter d ds (Piece.sep pc) t0 ti rest (mkCursor p b p p)
             Hd Hds Hsp Ht0 Ht0' Hti).
  cbn [pos g_start g_end List.length]. f_equal. f_equal; lia.
Qed.

(** *** Scanning a laid-out text *)

Lemma finditer_skip re y rest :
  forall p b, exists b',
    finditer_aux re (List.length y) p b (y ++ rest)
    = finditer_aux re 0 (p + List.length y) b' rest.
Proof.
  induction y as [|c y IH]; intros p b; cbn [List.length app].
  - exists b. now rewrite Nat.add_0_r.
  - cbn [finditer_aux]. destruct (IH (S p) (Some c)) as [b' E]. exists b'.
    rewrite E. f_equal. lia.
Qed.

Lemma match_chapter_none p b s :
  startswith word8 s = false -> match_at chapter p b s = None.
Proof.
  intros H. unfold match_at, chapter. now rewrite run_lit_fail.
Qed.

Lemma finditer_nowhere x tail :
  nowhere word8 x tail ->
  forall p b, exists b',
    finditer_aux chapter 0 p b (x ++ tail)
    = finditer_aux chapter 0 (p + List.length x) b' tail.
Proof.
  induction x as [|c x IH]; intros N p b; cbn [List.length app].
  - exists b. now rewrite Nat.add_0_r.
  - destruct N as [S N]. cbn [app] in S. cbn [finditer_aux].
    rewrite (match_chapter_none p b _ S).
    destruct (IH N (Datatypes.S p) (Some c)) as [b' E]. exists b'.
    rewrite E. f_equal. lia.
Qed.

Lemma finditer_heading pc rest p b :
  well_laid pc = true ->
  exists b',
    finditer_aux chapter 0 p b (heading pc ++ rest)
    = heading_match p pc
      :: finditer_aux chapter 0 (p + List.length (heading pc)) b' rest.
Proof.
  intros W. pose proof (match_heading pc rest p b W) as M.
  pose proof (heading_length pc) as L.
  destruct (heading pc) as [|c h] eqn:H; [cbn [List.length] in L; lia|].
  cbn [app] in *. cbn [finditer_aux]. rewrite M.
  unfold heading_match. cbn [m_end]. rewrite H.
  replace (p + List.length (c :: h) - p - 1)%nat with (List.length h)
    by (cbn [List.length]; lia).
  destruct (finditer_skip chapter h rest (S p) (Some c)) as [b' E]. exists b'.
  rewrite E. f_equal. f_equal. cbn [List.length]. lia.
Qed.

(** *** The word Chapter at the border of a body *)

Lemma startswith_prefix a e z :
  startswith (a ++ e) z = true -> startswith a z = true.
Proof.
  revert z. induction a as [|c a IH]; intros z H; [reflexivity|].
  destruct z as [|d z]; [discriminate H|].
  cbn [app startswith] in *. apply andb_true_iff in H as [H1 H2].
  rewrite H1. cbn [andb]. now apply IH.
Qed.

Lemma nowhere_longer a e x t : nowhere a x t -> nowhere (a ++ e) x t.
Proof.
  induction x as [|c x IH]; cbn [nowhere]; [auto|].
  intros [H N]. split; [|auto].
  destruct (startswith (a ++ e) ((c :: x) ++ t)) eqn:E; [|reflexivity].
  apply startswith_prefix in E. congruence.
Qed.

(** The word has no border: it does not start inside a text that ends
    where the word begins again. *)
Lemma word7_border s r :
  s <> [] ->
  startswith word7 s = false ->
  startswith word7 (s ++ word7 ++ r) = false.
Proof.
  unfold word7.
  change (u "Chapter") with [67; 104; 97; 112; 116; 101; 114]%N.
  intros N H.
  destruct s as [|c1 [|c2 [|c3 [|c4 [|c5 [|c6 [|c7 s]]]]]]];
    [contradiction|..]; cbn [app startswith] in *;
    try exact H;
    unfold ch_eqb in *; cbn [N.eqb Pos.eqb];
    rewrite ?andb_false_r; reflexivity.
Qed.

Lemma nowhere_border x r :
  nowhere word7 x [] -> nowhere word7 x (word7 ++ r).
Proof.
  induction x as [|c x IH]; cbn [nowhere]; [auto|].
  intros [H N]. split; [|auto].
  rewrite app_nil_r in H. apply word7_border; [discriminate|exact H].
Qed.

Lemma layout_shape ps : layout ps = [] \/ exists r, layout ps = word7 ++ r.
Proof.
  destruct ps as [|pc ps]; [now left|right].
  cbn [layout]. unfold heading.
  change (u "Chapter ") with (word7 ++ [32%N]). rewrite <- !app_assoc.
  eauto.
Qed.

Lemma body_nowhere body ps :
  contains word7 body = false -> nowhere word7 body (layout ps).
Proof.
  intros C. apply contains_false_nowhere in C.
  destruct (layout_shape ps) as [->|[r ->]]; [exact C|].
  now apply nowhere_border.
Qed.

(** *** What the loop makes of one match *)

Lemma find_nat_at w x r :
  nowhere w x (w ++ r) -> find_nat w (x ++ w ++ r) = Some (List.length x).
Proof.
  induction x as [|c x IH]; cbn [nowhere].
  - intros _. cbn [app List.length]. apply find_nat_here. apply startswith_app.
  - intros [H N]. cbn [app] in *. cbn [find_nat]. rewrite H.
    now rewrite (IH N).
Qed.

Lemma find_from_after w x y :
  find_from w (x ++ y) (List.length x)
  = match find_nat w y with
    | Some i => Z.of_nat (List.length x + i)
    | None => (-1)%Z
    end.
Proof.
  unfold find_from.
  destruct (Nat.ltb_spec (List.length (x ++ y)) (List.length x)) as [L|_].
  - rewrite length_app in L. lia.
  - now rewrite skipn_app, skipn_all, Nat.sub_diag.
Qed.

Lemma slice_to_end x y :
  slice (x ++ y) (Z.of_nat (List.length x)) (len (x ++ y)) = y.
Proof.
  unfold len. rewrite slice_nat by (rewrite length_app; lia).
  rewrite skipn_app, skipn_all, Nat.sub_diag. cbn [app skipn].
  rewrite length_app. apply firstn_all2. lia.
Qed.

Lemma body_slice x body ps :
  contains word7 body = false ->
  let text := x ++ body ++ layout ps in
  let next := find_from word7 text (List.length x) in
  slice text (Z.of_nat (List.length x))
    (if (next =? -1)%Z then len text else next) = body.
Proof.
  intros C text next. subst next text. rewrite find_from_after.
  pose proof (body_nowhere body ps C) as N.
  destruct (layout_shape ps) as [E|[r E]]; rewrite E in *.
  - rewrite app_nil_r. unfold contains in C.
    destruct (find_nat word7 body); [discriminate|].
    cbn [Z.eqb]. apply slice_to_end.
  - rewrite (find_nat_at _ _ _ N).
    destruct (Z.eqb_spec (Z.of_nat (List.length x + List.length body)) (-1));
      [lia|].
    apply slice_middle.
Qed.

Lemma chapter_of_piece pre pc ps i :
  well_laid pc = true ->
  chapter_of (pre ++ heading pc ++ Piece.body pc ++ layout ps) i
    (heading_match (List.length pre) pc)
  = Chapter.mk i (strip (Piece.title pc))
      (_clean_text (strip (Piece.body pc)))
      (len (_clean_text (strip (Piece.body pc)))).
Proof.
  intros W.
  destruct (well_laid_inv pc W) as (_ & _ & _ & _ & _ & _ & _ & _ & _ & _ & _ & _ & C).
  unfold chapter_of, heading_match. cbn [m_gstart m_gend m_end].
  assert (slice (pre ++ heading pc ++ Piece.body pc ++ layout ps)
            (Z.of_nat (group_start (List.length pre) pc))
            (Z.of_nat (group_start (List.length pre) pc
                       + List.length (Piece.title pc)))
          = Piece.title pc) as ->.
  { unfold heading.
    replace (pre ++ (u "Chapter " ++ Piece.digits pc ++ Piece.sep pc
                     ++ Piece.title pc ++ [nl])
             ++ Piece.body pc ++ layout ps)
      with ((pre ++ u "Chapter " ++ Piece.digits pc ++ Piece.sep pc)
            ++ Piece.title pc ++ (nl :: Piece.body pc ++ layout ps))
      by (now rewrite <- !app_assoc).
    replace (group_start (List.length pre) pc)
      with (List.length (pre ++ u "Chapter " ++ Piece.digits pc ++ Piece.sep pc)).
    - apply slice_middle.
    - unfold group_start. rewrite !length_app.
      change (List.length (u "Chapter ")) with 8%nat. lia. }
  pose proof (body_slice (pre ++ heading pc) (Piece.body pc) ps C) as B.
  cbn zeta in B. rewrite length_app, <- app_assoc in B.
  fold word7. rewrite B. reflexivity.
Qed.

(** *** The whole scan *)

Lemma layout_finditer ps :
  forallb well_laid ps = true ->
  forall pre b i,
    List.map (fun im => chapter_of (pre ++ layout ps) (fst im) (snd im))
      (enumerate i (finditer_aux chapter 0 (List.length pre) b (layout ps)))
    = chapters_of i ps.
Proof.
  induction ps as [|pc ps IH]; intros W pre b i.
  - cbn [layout finditer_aux]. now rewrite match_chapter_none.
  - cbn [forallb] in W. apply andb_true_iff in W as [Wpc Wps].
    cbn [layout chapters_of].
    destruct (finditer_heading pc (Piece.body pc ++ layout ps)
                (List.length pre) b Wpc) as [b1 E1].
    rewrite E1.
    destruct (well_laid_inv pc Wpc)
      as (_ & _ & _ & _ & _ & _ & _ & _ & _ & _ & _ & _ & C).
    pose proof (@nowhere_longer word7 [32%N] _ _
                  (@body_nowhere (Piece.body pc) ps C)) as N.
    change (word7 ++ [32%N]) with word8 in N.
    destruct (@finditer_nowhere _ _ N
                (List.length pre + List.length (heading pc))%nat b1)
      as [b2 E2].
    rewrite E2. cbn [enumerate List.map fst snd]. f_equal.
    + now apply chapter_of_piece.
    + specialize (IH Wps (pre ++ heading pc ++ Piece.body pc) b2 (i + 1)%Z).
      rewrite !length_app, Nat.add_assoc in IH.
      rewrite <- !app_assoc in IH. exact IH.
Qed.

(** *** No table of contents, nothing removed *)

Lemma star_any_lit_fail w re s :
  contains w s = false ->
  forall st, star any false (run (lit w ++ re)) st s = None.
Proof.
  induction s as [|c s IH]; intros C st.
  - cbn [star]. apply run_lit_fail. unfold contains in C. cbn [find_nat] in C.
    now destruct (startswith w []).
  - rewrite SegmentMore.contains_cons in C. apply orb_false_iff in C as [S C].
    cbn [star]. unfold any at 1. rewrite (run_lit_fail w re (c :: s) st S).
    now apply IH.
Qed.

Lemma headers_no_match s p b :
  contains (u "Contents") s = false -> match_at headers p b s = None.
Proof.
  intros C. unfold match_at, headers. cbn [app run].
  destruct (at_line_start _); [|reflexivity].
  now rewrite (@star_any_lit_fail (u "Contents")
                 [Star any false; One (ch_eqb nl)] s C).
Qed.

Lemma sub_aux_headers_none s :
  contains (u "Contents") s = false ->
  forall p b, sub_aux headers [] 0 p b s = s.
Proof.
  induction s as [|c s IH]; intros C p b; cbn [sub_aux];
    rewrite (@headers_no_match _ p b C); [reflexivity|].
  rewrite SegmentMore.contains_cons in C. apply orb_false_iff in C as [_ C].
  now rewrite IH.
Qed.

(** X21: a novel that is laid out in chapters is read back as laid out.  When
    the text is some front matter without the word Chapter followed by
    well-laid pieces, and the word Contents occurs nowhere, [process_novel]
    returns one chapter for each piece, numbered from 1 in order, with the
    stripped title of the piece and its cleaned body. *)
Theorem process_novel_laid_out front ps :
  contains (u "Contents") (front ++ layout ps) = false ->
  contains (u "Chapter") front = false ->
  forallb well_laid ps = true ->
  process_novel (Return (front ++ layout ps)) = Return (chapters_of 1 ps).
Proof.
  intros Contents Front W.
  unfold process_novel, try_except, bind.
  unfold sub. rewrite (@sub_aux_headers_none _ Contents).
  unfold finditer.
  pose proof (@nowhere_longer word7 [32%N] _ _ (@body_nowhere front ps Front))
    as N.
  change (word7 ++ [32%N]) with word8 in N.
  destruct (@finditer_nowhere _ _ N 0%nat None) as [b E].
  rewrite E. cbn [Nat.add].
  now rewrite (@layout_finditer ps W front b 1).
Qed.

End LayoutFacts.

(** ** The further statements on concrete inputs *)

Module MoreScenarios.

Import Json DataPreprocessor DocumentChunker ChunkSpec MoreSpec Samples MoreSamples.

Definition second_chunk : Chunk.t :=
  Chunk.mk (u "D") (u "E")
    (Metadata.mk 1 (Chapter.title chapter1) 1 2 2 false true).

Lemma middle_invalid_run :
  create_chunks (answers middle_invalid_text) Json.loads chapter1
  = Return middle_invalid_chunks.
Proof. vm_compute. reflexivity. Qed.

Lemma create_chunks_chunk_fields_witness :
  Metadata.chapter_number (Chunk.metadata second_chunk) = 1%Z /\
  Metadata.chapter_title (Chunk.metadata second_chunk) = Chapter.title chapter1 /\
  strip (Chunk.text second_chunk) = Chunk.text second_chunk /\
  strip (Chunk.summary second_chunk) = Chunk.summary second_chunk /\
  (0 <= Metadata.chunk_start (Chunk.metadata second_chunk)
     <= Metadata.chunk_end (Chunk.metadata second_chunk))%Z.
Proof.
  apply (@ChunkerMore.create_chunks_chunk_fields
           (answers middle_invalid_text) Json.loads chapter1
           middle_invalid_chunks second_chunk middle_invalid_run).
  right. left. reflexivity.
Defined.

Lemma create_chunks_indices_increase_witness :
  StronglySorted Z.lt
    (List.map (fun c => Metadata.chunk_index (Chunk.metadata c))
       middle_invalid_chunks) /\
  (forall c, In c middle_invalid_chunks ->
     Metadata.is_first_chunk (Chunk.metadata c) = true ->
     exists rest, middle_invalid_chunks = c :: rest) /\
  (forall c, In c middle_invalid_chunks ->
     Metadata.is_last_chunk (Chunk.metadata c) = true ->
     exists front, middle_invalid_chunks = front ++ [c]).
Proof.
  apply (@ChunkerMore.create_chunks_indices_increase
           (answers middle_invalid_text) Json.loads chapter1
           middle_invalid_chunks middle_invalid_run).
Defined.

Lemma create_chunks_start_is_total_witness :
  Metadata.chunk_start (Chunk.metadata second_chunk) = 1%Z /\
  Metadata.chunk_end (Chunk.metadata second_chunk) = 2%Z.
Proof.
  apply (@ChunkerMore.create_chunks_start_is_total
           (answers middle_invalid_text) Json.loads chapter1
           [Chunk.mk (u "A") (u "B")
              (Metadata.mk 1 (Chapter.title chapter1) 0 1 0 true false)]
           second_chunk [] middle_invalid_run).
Defined.

Lemma create_chunks_all_or_nothing_witness :
  create_chunks (answers number_as_text_text) Json.loads chapter1 = Return [].
Proof.
  apply (@ChunkerMore.create_chunks_all_or_nothing
           (answers number_as_text_text) Json.loads chapter1
           number_as_text_text number_as_text
           (PyDict [(text_key, PyInt 1); (summary_key, PyStr (u "s"))]));
    try (vm_compute; reflexivity).
  left. reflexivity.
Defined.

Lemma create_chunks_keeps_valid_records_witness :
  exists chunks,
    create_chunks (answers trailing_invalid_text) Json.loads chapter1
      = Return chunks /\
    List.map fields_of chunks = [(u "A", u "B")].
Proof.
  apply (@ChunkerMore.create_chunks_keeps_valid_records
           (answers trailing_invalid_text) Json.loads chapter1
           trailing_invalid_text trailing_invalid);
    try (vm_compute; reflexivity).
  discriminate.
Defined.

Lemma clean_text_fixes_tidy_witness :
  _clean_text (u "The boy who lived.") = u "The boy who lived.".
Proof.
  apply (@CleanMore.clean_text_fixes_tidy (u "The boy who lived.")).
  vm_compute. reflexivity.
Defined.

Lemma extract_json_unfenced_witness :
  extract_json (unfenced_before ++ one_record_text ++ unfenced_after)
  = one_record_text.
Proof.
  apply (@ExtractMore.extract_json_unfenced
           unfenced_before one_record_text unfenced_after);
    vm_compute; reflexivity.
Defined.

Lemma process_profile_missing_field_witness :
  process_profile (Return (PyDict profile_without_traits)) today
  = Raise (ValueError (u "Missing required field: traits")).
Proof.
  apply (@ProfileFacts.process_profile_missing_field
           profile_without_traits today (u "traits")).
  vm_compute. reflexivity.
Defined.

Lemma profile_run :
  process_profile (Return (PyDict profile)) today = Return (PyDict profile_out).
Proof. vm_compute. reflexivity. Qed.

Lemma process_profile_result_witness :
  exists d s d',
    Return (PyDict profile) = Return (PyDict d) /\ PyDict profile_out = PyDict d' /\
    dict_get ProfileFacts.description_key d = Some (PyStr s) /\
    dict_get ProfileFacts.description_key d' = Some (PyStr (_clean_text s)) /\
    dict_get ProfileFacts.metadata_key d' = Some (profile_metadata today) /\
    (forall k, k <> ProfileFacts.description_key -> k <> ProfileFacts.quotes_key ->
       k <> ProfileFacts.metadata_key -> dict_get k d' = dict_get k d) /\
    List.map fst d'
    = (if dict_has ProfileFacts.metadata_key d then List.map fst d
       else List.map fst d ++ [ProfileFacts.metadata_key]).
Proof.
  apply (@ProfileFacts.process_profile_result
           (Return (PyDict profile)) today (PyDict profile_out) profile_run).
Defined.

Lemma process_profile_quotes_witness :
  exists ss,
    iter_values (PyList [PyStr (u " I solemnly  swear. "); PyStr (u "Mischief managed")])
      = Return (List.map PyStr ss) /\
    dict_get ProfileFacts.quotes_key profile_out
    = Some (PyList (List.map (fun s => PyStr (_clean_text s)) ss)).
Proof.
  apply (@ProfileFacts.process_profile_quotes profile today profile_out profile_run).
Defined.

Lemma process_profile_again_witness :
  process_profile (Return (PyDict profile_out)) today = Return (PyDict profile_out).
Proof.
  apply (@ProfileFacts.process_profile_again
           (Return (PyDict profile)) today (PyDict profile_out) profile_run).
Defined.

Lemma process_wiki_sections_witness :
  exists sections,
    process_wiki (Return page) page_url
    = Return (WikiData.mk (u "Harry Potter") page_url sections
                (u "Last edited today") (u "wiki")) /\
    forall k,
      sections_get k sections
      = section_of k
          [Tag.mk Tag.p (u "Lead paragraph.");
           Tag.mk Tag.h2 (u " History ");
           Tag.mk Tag.p (u " First   paragraph. ");
           Tag.mk Tag.p (u "   ");
           Tag.mk Tag.h2 (u "Plot");
           Tag.mk Tag.p (u "A plot.");
           Tag.mk Tag.h2 (u "History");
           Tag.mk Tag.p (u "Second history.")].
Proof.
  apply (@WikiFacts.process_wiki_sections page page_url _
           (u "Harry Potter") (u "Last edited today"));
    reflexivity.
Defined.

Lemma page_run : process_wiki (Return page) page_url = Return page_data.
Proof. vm_compute. reflexivity. Qed.

Lemma process_wiki_paragraphs_clean_witness :
  strip (u "History") = u "History" /\
  Forall (fun t => t <> [] /\ tidy t = true) [u "Second history."].
Proof.
  apply (@WikiFacts.process_wiki_paragraphs_clean
           (Return page) page_url page_data (u "History")
           [u "Second history."] page_run).
  vm_compute. reflexivity.
Defined.

Lemma process_novel_laid_out_witness :
  process_novel (Return (title_page ++ layout pieces))
  = Return [Chapter.mk 1 (u "The Start") (u "It was a dark night.") 20;
            Chapter.mk 2 (u "Onwards") (u "They left.") 10].
Proof.
  apply (@LayoutFacts.process_novel_laid_out title_page pieces);
    vm_compute; reflexivity.
Defined.

End MoreScenarios.
